(** * github_trending_bot: the aggregate analyzer, the trend comparator and
      the closest-snapshot lookup

    A shallow embedding of [analyze_data], [compare_trends] and
    [find_comparison_file] of [src/github_trending_bot.py], together with
    the properties the specification states about them, and of the parts
    of the two reports, of the README cache and of [main] that compute
    texts, tables and file names, with further properties of the code.

    Conventions of the embedding.
    - Python [int] is [Z]; Python [float] is IEEE binary64, taken from the
      standard library's [SpecFloat] (precision 53, [emax] 1024).
    - Python [str] is [string], read as the UTF-8 bytes of the text:
      comparing UTF-8 byte-wise is comparing code points, which is the order
      of [sorted] on [str].
    - A repository record is a Python [dict] living in the object store; the
      two repository lists are lists of references into that store, so that
      the assignment [repo['prev_stars'] = ...] is visible through every
      alias of the record.
    - [print] appends a structured line to the standard output carried by
      the state. *)

From Stdlib Require Import ZArith List String Ascii Permutation Sorted Lia.
From Stdlib Require Import Floats.SpecFloat.
From stdpp Require Import base option list functions gmap strings pretty sorting.

Local Open Scope string_scope.
Local Open Scope list_scope.
Local Open Scope Z_scope.

(* ===================================================================== *)
(** * Python primitives *)
(* ===================================================================== *)

Module Py.

(** The exceptions that the modelled code can raise. *)
Inductive exn :=
| KeyError (key : string)
| ZeroDivisionError
| OverflowError
| ValueError.

Definition result (A : Type) : Type := exn + A.

Definition rret {A} (a : A) : result A := inr a.
Definition rbind {A B} (m : result A) (f : A → result B) : result B :=
  match m with
  | inl e => inl e
  | inr a => f a
  end.

Fixpoint rmap {A B} (f : A → result B) (l : list A) : result (list B) :=
  match l with
  | [] => rret []
  | x :: l' =>
      rbind (f x) (λ y, rbind (rmap f l') (λ ys, rret (y :: ys)))
  end.

(** ** Floats *)

Definition float := spec_float.
Definition prec : Z := 53.
Definition emax : Z := 1024.

(** [float('inf')] *)
Definition float_inf : float := S754_infinity false.

(** An integer as an exact (unnormalised) binary number, the operand of the
    correctly rounded integer division. *)
Definition exact_of_int (z : Z) : float :=
  match z with
  | Z0 => S754_zero false
  | Zpos p => S754_finite false p 0
  | Zneg p => S754_finite true p 0
  end.

(** [a / b] on two [int]s: the quotient rounded once to the nearest
    binary64 (ties to even), [ZeroDivisionError] on a zero divisor and
    [OverflowError] when the rounded quotient is out of range. *)
Definition int_truediv (a b : Z) : result float :=
  if b =? 0 then inl ZeroDivisionError
  else
    match SFdiv prec emax (exact_of_int a) (exact_of_int b) with
    | S754_infinity _ => inl OverflowError
    | q => inr q
    end.

(** [float(n)] for a small literal [n]. *)
Definition float_of_int (z : Z) : float := binary_normalize prec emax z 0 false.

(** [x * y] on floats: never raises, overflows to an infinity. *)
Definition float_mul (x y : float) : float := SFmul prec emax x y.

(** ** Formatting with [+.2f] *)

(** [n / d] rounded to the nearest integer, ties to even ([0 <= n], [0 < d]). *)
Definition round_half_even_div (n d : Z) : Z :=
  let q := n / d in
  let r := n mod d in
  match 2 * r ?= d with
  | Lt => q
  | Gt => q + 1
  | Eq => if Z.even q then q else q + 1
  end.

(** The hundredths of [m * 2^e], correctly rounded. *)
Definition hundredths (m : positive) (e : Z) : Z :=
  if 0 <=? e then Z.pos m * 2 ^ e * 100
  else round_half_even_div (Z.pos m * 100) (2 ^ (- e)).

Definition sign_str (s : bool) : string := if s then "-" else "+".

Definition two_digits (n : Z) : string :=
  if n <? 10 then "0" +:+ pretty n else pretty n.

(** [f"{x:+.2f}"]: the sign, the integer part, a point and two decimals,
    from the exact binary value of [x]. *)
Definition format_pm_2f (x : float) : string :=
  match x with
  | S754_zero s => sign_str s +:+ "0.00"
  | S754_infinity s => sign_str s +:+ "inf"
  | S754_nan => "+nan"
  | S754_finite s m e =>
      let c := hundredths m e in
      sign_str s +:+ pretty (c / 100) +:+ "." +:+ two_digits (c mod 100)
  end.

(** ** [sorted] *)

(** [sorted(l, key=key, reverse=reverse)] is a stable sort: its result is
    the one arrangement of [l] that is ordered by key and keeps elements of
    equal key in their order in [l] (also with [reverse=True]).  It is
    computed here by insertion from the right; [before y x] says that [y]
    has to come strictly before [x]. *)
Section Sorted.
Context {A K : Type} (key : A → K) (lt : K → K → bool) (reverse : bool).

Definition before (y x : A) : bool :=
  if reverse then lt (key x) (key y) else lt (key y) (key x).

Fixpoint insert_stable (x : A) (s : list A) : list A :=
  match s with
  | [] => [x]
  | y :: s' => if before y x then y :: insert_stable x s' else x :: s
  end.

Definition sorted (l : list A) : list A := foldr insert_stable [] l.
End Sorted.

(** ** Slices and paths *)

(** [s[i:]] for [0 <= i]. *)
Fixpoint drop_str (n : nat) (s : string) : string :=
  match n, s with
  | O, _ => s
  | S n', String _ s' => drop_str n' s'
  | S _, EmptyString => EmptyString
  end.

(** [s[:n]] for [0 <= n]. *)
Fixpoint take_str (n : nat) (s : string) : string :=
  match n, s with
  | O, _ => EmptyString
  | S n', String c s' => String c (take_str n' s')
  | S _, EmptyString => EmptyString
  end.

(** [s[i:-j]] for [0 <= i] and [0 < j]: the characters from index [i] up to
    (not including) index [len(s) - j], empty when there are none. *)
Definition slice_from_to_end (i j : nat) (s : string) : string :=
  take_str (String.length s - j - i)%nat (drop_str i s).

Fixpoint has_slash (p : string) : bool :=
  match p with
  | EmptyString => false
  | String c p' => Ascii.eqb c "/"%char || has_slash p'
  end.

(** [os.path.basename] on a POSIX path: what follows the last slash. *)
Fixpoint basename (p : string) : string :=
  match p with
  | EmptyString => EmptyString
  | String c p' =>
      if has_slash p' then basename p'
      else if Ascii.eqb c "/"%char then p' else p
  end.

End Py.

(* ===================================================================== *)
(** * The data model *)
(* ===================================================================== *)

Module Bot.
Import Py.

(** A repository record, as the search API returns it and as the data files
    store it.  Only the keys the modelled functions read are kept.
    [full_name], [name] and [stargazers_count] are read with [repo[...]] and
    taken as present.  [forks_count] is read with [.get(..., 0)]: [None]
    stands for a record without that key.  [language] is read with
    [repo['language']]: [None] stands for a record without the key,
    [Some None] for JSON [null], [Some (Some s)] for a string.
    [prev_stars] is the key [compare_trends] adds: [None] until then. *)
Record repo := Repo {
  full_name : string;
  name : string;
  stargazers_count : Z;
  forks_count : option Z;
  language : option (option string);
  prev_stars : option Z
}.

(** [repo['prev_stars'] = v] *)
Definition set_prev_stars (r : repo) (v : Z) : repo :=
  {| full_name := full_name r; name := name r;
     stargazers_count := stargazers_count r; forks_count := forks_count r;
     language := language r; prev_stars := Some v |}.

(** A [dict] with [str] keys whose order is observed: the list of its items
    in insertion order. *)
Definition dict (V : Type) : Type := list (string * V).

(** [d.get(k, dflt)] *)
Fixpoint dict_get {V} (d : dict V) (k : string) (dflt : V) : V :=
  match d with
  | [] => dflt
  | (k', v) :: d' => if decide (k' = k) then v else dict_get d' k dflt
  end.

(** [d[k] = v]: a present key keeps its place, a new key goes last. *)
Fixpoint dict_set {V} (d : dict V) (k : string) (v : V) : dict V :=
  match d with
  | [] => [(k, v)]
  | (k', v') :: d' =>
      if decide (k' = k) then (k', v) :: d' else (k', v') :: dict_set d' k v
  end.

(** [d.keys()] *)
Definition dict_keys {V} (d : dict V) : list string := fst <$> d.

(** [dict(pairs)] *)
Definition dict_of_pairs {V} (pairs : list (string * V)) : dict V :=
  fold_left (λ d kv, dict_set d kv.1 kv.2) pairs [].

(** [Counter(l)]: one pass, [c[x] = c.get(x, 0) + 1]. *)
Definition Counter (l : list string) : dict Z :=
  fold_left (λ c x, dict_set c x (dict_get c x 0 + 1)) l [].

(** [c.most_common()]: the items, highest count first, stable. *)
Definition most_common (c : dict Z) : list (string * Z) :=
  sorted snd Z.ltb true c.

(** [sum(l)] *)
Definition sum (l : list Z) : Z := fold_left Z.add l 0.

(** The result of [analyze_data]. *)
Record analysis := Analysis {
  repo_count : Z;
  total_stars : Z;
  total_forks : Z;
  language_stats : dict Z
}.

(* ===================================================================== *)
(** * analyze_data *)
(* ===================================================================== *)

(** [repo['language']] *)
Definition getitem_language (r : repo) : result (option string) :=
  match language r with
  | None => inl (KeyError "language")
  | Some v => inr v
  end.

(** [v or d] on an optional string: [None] and the empty string are falsy. *)
Definition or_str (v : option string) (d : string) : string :=
  match v with
  | None => d
  | Some s => if decide (s = "") then d else s
  end.

Definition analyze_data (repos : list repo) : result (option analysis) :=
  match repos with
  | [] => rret None
  | _ =>
      rbind (rmap (λ repo, rbind (getitem_language repo)
                             (λ lang, rret (or_str lang "N/A"))) repos)
        (λ language_list,
           let language_stats := Counter language_list in
           let total_stars := sum (stargazers_count <$> repos) in
           let total_forks :=
             sum ((λ repo, default 0 (forks_count repo)) <$> repos) in
           rret (Some {| repo_count := Z.of_nat (length repos);
                         total_stars := total_stars;
                         total_forks := total_forks;
                         language_stats :=
                           dict_of_pairs (most_common language_stats) |}))
  end.

(* ===================================================================== *)
(** * The state of a run: object store and standard output *)
(* ===================================================================== *)

(** A reference to a repository record. *)
Abbreviation loc := nat.

(** What [compare_trends] prints, one constructor per [print] of the
    source, holding the values interpolated into the line. *)
Inductive line :=
| Banner
| Change (label : string) (prev curr change : Z) (pct_str : string)
| LangHeading
| LangChange (lang : string) (prev_count curr_count change : Z)
             (pct_str : string)
| NewHeading (count : nat)
| NewProject (rank : Z) (name : string) (stars : Z)
| RankHeading (count : nat)
| RankChange (direction : string) (name : string)
             (prev_rank curr_rank change : Z) (star_pct_str : string)
| Rule.

Record world := World {
  store : loc → repo;
  stdout : list line
}.

(** Computations that read and write the state and may raise; the state
    survives an exception. *)
Definition M (A : Type) : Type := world → result A * world.

Definition ret {A} (a : A) : M A := λ w, (inr a, w).
Definition bind {A B} (m : M A) (f : A → M B) : M B :=
  λ w, match m w with
       | (inl e, w') => (inl e, w')
       | (inr a, w') => f a w'
       end.
Definition lift {A} (r : result A) : M A := λ w, (r, w).

Declare Scope m_scope.
Delimit Scope m_scope with M.
Notation "'let*' x := m 'in' k" := (bind m (λ x, k))
  (at level 10, x name, m at level 100, k at level 200) : m_scope.
Notation "m ;;; k" := (bind m (λ _, k))
  (at level 100, k at level 200, right associativity) : m_scope.

Definition print (l : line) : M unit :=
  λ w, (inr tt, {| store := store w; stdout := stdout w ++ [l] |}).

(** [r[key]] for a key that is always there, [key] given by its projection *)
Definition getitem {A} (key : repo → A) (r : loc) : M A :=
  λ w, (inr (key (store w r)), w).

(** [r['prev_stars']] *)
Definition getitem_prev_stars (r : loc) : M Z :=
  λ w, match prev_stars (store w r) with
       | Some v => (inr v, w)
       | None => (inl (KeyError "prev_stars"), w)
       end.

(** [r['prev_stars'] = v] *)
Definition setitem_prev_stars (r : loc) (v : Z) : M unit :=
  λ w, (inr tt,
        {| store := <[r := set_prev_stars (store w r) v]> (store w);
           stdout := stdout w |}).

Local Open Scope m_scope.

(** [for x in l: body(x)] *)
Fixpoint for_each {A} (l : list A) (body : A → M unit) : M unit :=
  match l with
  | [] => ret tt
  | x :: l' => body x ;;; for_each l' body
  end.

(** [[x for x in l if keep(x)]] *)
Fixpoint comprehension {A} (l : list A) (keep : A → M bool) : M (list A) :=
  match l with
  | [] => ret []
  | x :: l' =>
      let* b := keep x in
      let* tl := comprehension l' keep in
      ret (if b : bool then x :: tl else tl)
  end.

(* ===================================================================== *)
(** * compare_trends *)
(* ===================================================================== *)

(** The nested function [format_change]. *)
Definition format_change (prev curr : Z) (label : string) : M unit :=
  let change := curr - prev in
  let* pct_change :=
    (if negb (prev =? 0)
     then let* q := lift (int_truediv change prev) in
          ret (float_mul q (float_of_int 100))
     else ret float_inf) in
  let pct_str :=
    if negb (prev =? 0) then format_pm_2f pct_change +:+ "%" else "N/A" in
  print (Change label prev curr change pct_str).

(** [set(prev.keys()) | set(curr.keys())] *)
Definition all_langs (previous_analysis current_analysis : analysis)
  : gset string :=
  list_to_set (dict_keys (language_stats previous_analysis))
  ∪ list_to_set (dict_keys (language_stats current_analysis)).

(** [sorted(s)] on a set of strings: the iteration order of the set does not
    show in the result. *)
Definition sorted_strings (s : gset string) : list string :=
  sorted id String.ltb false (elements s).

(** The body of the loop over the languages. *)
Definition language_change (previous_analysis current_analysis : analysis)
    (lang : string) : M unit :=
  let prev_count := dict_get (language_stats previous_analysis) lang 0 in
  let curr_count := dict_get (language_stats current_analysis) lang 0 in
  if negb (prev_count =? curr_count) then
    let change := curr_count - prev_count in
    let* pct_change :=
      (if negb (prev_count =? 0)
       then let* q := lift (int_truediv change prev_count) in
            ret (float_mul q (float_of_int 100))
       else ret float_inf) in
    let pct_str :=
      if negb (prev_count =? 0) then format_pm_2f pct_change +:+ "%"
      else "N/A" in
    print (LangChange lang prev_count curr_count change pct_str)
  else ret tt.

(** A value of the identity index: [{'rank': i, 'stars': n}]. *)
Record entry := Entry { rank : Z; stars : Z }.

(** [for i, repo in enumerate(repos, i): d[repo['full_name']] = {...}] *)
Fixpoint index_loop (repos : list loc) (i : Z) (d : gmap string entry)
  : M (gmap string entry) :=
  match repos with
  | [] => ret d
  | repo :: rest =>
      let* key := getitem full_name repo in
      let* n := getitem stargazers_count repo in
      index_loop rest (i + 1) (<[key := {| rank := i; stars := n |}]> d)
  end.

(** [d[k]] on an index *)
Definition index_getitem (d : gmap string entry) (k : string) : M entry :=
  match d !! k with
  | Some e => ret e
  | None => lift (inl (KeyError k))
  end.

(** An element of [rank_changes]:
    [(repo, prev_rank, curr_rank, change)]. *)
Definition rank_change : Type := loc * Z * Z * Z.

Definition rc_repo (x : rank_change) : loc := x.1.1.1.
Definition rc_prev_rank (x : rank_change) : Z := x.1.1.2.
Definition rc_curr_rank (x : rank_change) : Z := x.1.2.
Definition rc_change (x : rank_change) : Z := x.2.

(** The loop that fills [rank_changes]. *)
Fixpoint rank_loop (prev_dict curr_dict : gmap string entry)
    (repos : list loc) (rank_changes : list rank_change)
  : M (list rank_change) :=
  match repos with
  | [] => ret rank_changes
  | repo :: rest =>
      let* name := getitem full_name repo in
      if decide (name ∈ dom prev_dict) then
        let* pe := index_getitem prev_dict name in
        let prev_rank := rank pe in
        let* ce := index_getitem curr_dict name in
        let curr_rank := rank ce in
        if negb (prev_rank =? curr_rank) then
          let change := prev_rank - curr_rank in
          let* pe' := index_getitem prev_dict name in
          setitem_prev_stars repo (stars pe') ;;;
          rank_loop prev_dict curr_dict rest
            (rank_changes ++ [(repo, prev_rank, curr_rank, change)])
        else rank_loop prev_dict curr_dict rest rank_changes
      else rank_loop prev_dict curr_dict rest rank_changes
  end.

(** [sorted(rank_changes, key=lambda x: abs(x[3]), reverse=True)] *)
Definition sorted_rank_changes (rank_changes : list rank_change)
  : list rank_change :=
  sorted (λ x, Z.abs (rc_change x)) Z.ltb true rank_changes.

(** The body of the loop that prints the rank changes. *)
Definition print_rank_change (x : rank_change) : M unit :=
  let '(repo, prev_rank, curr_rank, change) := x in
  let direction := if 0 <? change then "📈" else "📉" in
  let* n := getitem stargazers_count repo in
  let* p := getitem_prev_stars repo in
  let star_change := n - p in
  let* star_pct :=
    (if negb (p =? 0)
     then let* q := lift (int_truediv star_change p) in
          ret (float_mul q (float_of_int 100))
     else ret float_inf) in
  let star_pct_str :=
    if negb (p =? 0) then format_pm_2f star_pct +:+ "%" else "N/A" in
  let* nm := getitem name repo in
  print (RankChange direction nm prev_rank curr_rank change star_pct_str).

(** The loop over the languages. *)
Definition language_changes (previous_analysis current_analysis : analysis)
  : M unit :=
  for_each (sorted_strings (all_langs previous_analysis current_analysis))
           (language_change previous_analysis current_analysis).

(** [[repo for repo in current_repos
      if repo['full_name'] not in prev_dict]] *)
Definition select_new_projects (prev_dict : gmap string entry)
    (current_repos : list loc) : M (list loc) :=
  comprehension current_repos
    (λ repo, let* key := getitem full_name repo in
             ret (bool_decide (key ∉ dom prev_dict))).

(** The body of the loop that prints the new projects. *)
Definition print_new_project (curr_dict : gmap string entry) (repo : loc)
  : M unit :=
  let* key := getitem full_name repo in
  let* ce := index_getitem curr_dict key in
  let* nm := getitem name repo in
  let* n := getitem stargazers_count repo in
  print (NewProject (rank ce) nm n).

Definition compare_trends (previous_analysis current_analysis : analysis)
    (previous_repos current_repos : list loc) : M unit :=
  print Banner ;;;
  format_change (total_stars previous_analysis)
                (total_stars current_analysis) "⭐ 总星标数" ;;;
  format_change (total_forks previous_analysis)
                (total_forks current_analysis) "🍴 总Fork数" ;;;
  print LangHeading ;;;
  language_changes previous_analysis current_analysis ;;;
  let* prev_dict := index_loop previous_repos 1 ∅ in
  let* curr_dict := index_loop current_repos 1 ∅ in
  let* new_projects := select_new_projects prev_dict current_repos in
  (match new_projects with
   | [] => ret tt
   | _ =>
       print (NewHeading (length new_projects)) ;;;
       for_each new_projects (print_new_project curr_dict)
   end) ;;;
  let* rank_changes := rank_loop prev_dict curr_dict current_repos [] in
  (match rank_changes with
   | [] => ret tt
   | _ =>
       print (RankHeading (length rank_changes)) ;;;
       for_each (sorted_rank_changes rank_changes) print_rank_change
   end) ;;;
  print Rule.

Local Close Scope m_scope.

(* ===================================================================== *)
(** * find_comparison_file *)
(* ===================================================================== *)

(** A naive [datetime] is its number of microseconds on the proleptic
    calendar; a [timedelta] is a difference of two of them. *)
Definition us_per_day : Z := 86400000000.

(** [td.days]: a [timedelta] is kept as days, seconds and microseconds with
    the last two non-negative, so [days] is the floor. *)
Definition timedelta_days (td : Z) : Z := td / us_per_day.

(** [min_diff]: [float('inf')] or an [int]. *)
Inductive ext := Inf | Fin (d : Z).

(** [d < m] *)
Definition lt_ext (d : Z) (m : ext) : bool :=
  match m with
  | Inf => true
  | Fin m' => d <? m'
  end.

(** [m <= n] *)
Definition le_ext (m : ext) (n : Z) : bool :=
  match m with
  | Inf => false
  | Fin m' => m' <=? n
  end.

Section Lookup.
(** [datetime.strptime(s, '%Y-%m-%d')]: the day number of the date that
    [s] spells (the resulting [datetime] is that day at midnight), or
    [None] for the [ValueError] of the library. *)
Variable strptime : string → option Z.

(** [target_date] is [datetime.now() - timedelta(days=days_ago)] and
    [files] is the result of [glob.glob], in the order it lists them. *)
Variable target_date : Z.

(** [abs((target_date - file_date).days)] *)
Definition date_diff_of (file_day : Z) : Z :=
  Z.abs (timedelta_days (target_date - file_day * us_per_day)).

(** The loop over [files], from a state [(closest_file, min_diff)]. *)
Fixpoint scan (files : list string) (closest_file : option string)
    (min_diff : ext) : option string * ext :=
  match files with
  | [] => (closest_file, min_diff)
  | file_path :: rest =>
      let filename := basename file_path in
      let date_str := slice_from_to_end 5 5 filename in
      match strptime date_str with
      | Some file_day =>
          let date_diff := date_diff_of file_day in
          if lt_ext date_diff min_diff
          then scan rest (Some file_path) (Fin date_diff)
          else scan rest closest_file min_diff
      | None => scan rest closest_file min_diff
      end
  end.

Definition find_comparison_file (files : list string) : option string :=
  match files with
  | [] => None
  | _ =>
      let '(closest_file, min_diff) := scan files None Inf in
      if le_ext min_diff 2 then closest_file else None
  end.
End Lookup.

(** A reader of zero-padded ISO dates [YYYY-MM-DD], one function that
    [strptime] can be instantiated with in examples: the day number is the
    count of days from 0001-01-01 on the proleptic Gregorian calendar. *)
Definition digit_of (c : ascii) : option Z :=
  let n := Z.of_N (N_of_ascii c) in
  if (48 <=? n) && (n <=? 57) then Some (n - 48) else None.

Fixpoint number_of (cs : list ascii) (acc : Z) : option Z :=
  match cs with
  | [] => Some acc
  | c :: cs' =>
      match digit_of c with
      | Some d => number_of cs' (10 * acc + d)
      | None => None
      end
  end.

Definition is_leap (y : Z) : bool :=
  ((y mod 4 =? 0) && negb (y mod 100 =? 0)) || (y mod 400 =? 0).

Definition days_in_month (y m : Z) : Z :=
  if m =? 2 then (if is_leap y then 29 else 28)
  else if (m =? 4) || (m =? 6) || (m =? 9) || (m =? 11) then 30 else 31.

Definition days_before_year (y : Z) : Z :=
  let y' := y - 1 in y' * 365 + y' / 4 - y' / 100 + y' / 400.

Definition days_before_month (y m : Z) : Z :=
  sum (days_in_month y <$> (Z.of_nat <$> seq 1 (Z.to_nat (m - 1)))).

Definition iso_date (s : string) : option Z :=
  match list_ascii_of_string s with
  | [y1; y2; y3; y4; d1; m1; m2; d2; a1; a2] =>
      if Ascii.eqb d1 "-"%char && Ascii.eqb d2 "-"%char then
        match number_of [y1; y2; y3; y4] 0, number_of [m1; m2] 0,
              number_of [a1; a2] 0 with
        | Some y, Some m, Some d =>
            if (1 <=? y) && (1 <=? m) && (m <=? 12) && (1 <=? d)
               && (d <=? days_in_month y m)
            then Some (days_before_year y + days_before_month y m + d)
            else None
        | _, _, _ => None
        end
      else None
  | _ => None
  end.

End Bot.

(* ===================================================================== *)
(** * Sample data *)
(* ===================================================================== *)

(** The scenario of the specification: the previous snapshot holds [a]
    (100 stars) and [b] (50 stars), the current one [b] (80 stars) and [c]
    (60 stars).  The four records are the objects 0 to 3 of the store. *)
Module Sample.
Import Py Bot.

Definition record (id : string) (n : Z) (lang : option string) : repo :=
  {| full_name := "octo/" +:+ id; name := id; stargazers_count := n;
     forks_count := Some 1; language := Some lang; prev_stars := None |}.

Definition objects (l : loc) : repo :=
  match l with
  | 0%nat => record "a" 100 (Some "Go")
  | 1%nat => record "b" 50 None
  | 2%nat => record "b" 80 None
  | _ => record "c" 60 (Some "Rust")
  end.

Definition start : world := {| store := objects; stdout := [] |}.

Definition previous_repos : list loc := [0; 1]%nat.
Definition current_repos : list loc := [2; 3]%nat.

Definition previous_analysis : analysis :=
  {| repo_count := 2; total_stars := 150; total_forks := 2;
     language_stats := [("Go", 1); ("N/A", 1)] |}.
Definition current_analysis : analysis :=
  {| repo_count := 2; total_stars := 140; total_forks := 2;
     language_stats := [("N/A", 1); ("Rust", 1)] |}.

(** A record as a data file could hold it, without the [language] key. *)
Definition bare : repo :=
  {| full_name := "octo/d"; name := "d"; stargazers_count := 7;
     forks_count := None; language := None; prev_stars := None |}.

(** Snapshot files, the second with a name that spells no date. *)
Definition files : list string :=
  ["data/data_2024-04-22.json"; "data/data_backup.json";
   "data/data_2024-04-25.json"; "data/data_2024-04-27.json"].

(** 2024-04-26, 15:00. *)
Definition target_date : Z := 739002 * us_per_day + 54000000000.

End Sample.

(* ===================================================================== *)
(** * What the specification describes *)
(* ===================================================================== *)

(** The notions the properties are stated with.  None of them is part of
    the program: each is the plain description that a loop of the program
    is compared with. *)
Module Spec.
Import Py Bot.

(** The sum of a field over the records. *)
Fixpoint total (f : repo → Z) (repos : list repo) : Z :=
  match repos with
  | [] => 0
  | r :: rest => f r + total f rest
  end.

(** The language a record is counted under: the sentinel for a null or
    empty language. *)
Definition normalized_language (r : repo) : string :=
  match language r with
  | Some (Some s) => if decide (s = "") then "N/A" else s
  | _ => "N/A"
  end.

(** The number of records counted under [k]. *)
Definition occurrences (k : string) (repos : list repo) : Z :=
  Z.of_nat (length (filter (λ r, normalized_language r = k) repos)).

(** The identifiers of a snapshot, in rank order. *)
Definition identifiers (h : loc → repo) (repos : list loc) : list string :=
  (λ r, full_name (h r)) <$> repos.

(** The identity index of a snapshot whose first record has rank [i]: a
    later record with the same identifier replaces an earlier one. *)
Fixpoint index_from (h : loc → repo) (repos : list loc) (i : Z)
    (d : gmap string entry) : gmap string entry :=
  match repos with
  | [] => d
  | r :: rest =>
      index_from h rest (i + 1)
        (<[full_name (h r) := {| rank := i; stars := stargazers_count (h r) |}]> d)
  end.

Definition index_of (h : loc → repo) (repos : list loc) : gmap string entry :=
  index_from h repos 1 ∅.

(** The rank-change entry of one current record, if it has one. *)
Definition rank_change_of (h : loc → repo) (prev_dict curr_dict : gmap string entry)
    (r : loc) : option rank_change :=
  match prev_dict !! full_name (h r), curr_dict !! full_name (h r) with
  | Some pe, Some ce =>
      if decide (rank pe = rank ce) then None
      else Some (r, rank pe, rank ce, rank pe - rank ce)
  | _, _ => None
  end.

(** The store after the rank-change loop over [repos]: a record that got an
    entry carries the previous star count, every other record is as it
    was. *)
Definition stamped (h : loc → repo) (prev_dict curr_dict : gmap string entry)
    (repos : list loc) (l : loc) : repo :=
  match prev_dict !! full_name (h l) with
  | Some pe =>
      if decide (l ∈ repos ∧ is_Some (rank_change_of h prev_dict curr_dict l))
      then set_prev_stars (h l) (stars pe)
      else h l
  | None => h l
  end.

(** The languages whose count differs between the two summaries, in the
    order the loop meets them. *)
Definition changed_langs (previous_analysis current_analysis : analysis)
  : list string :=
  filter (λ lang, dict_get (language_stats previous_analysis) lang 0
                  ≠ dict_get (language_stats current_analysis) lang 0)
         (sorted_strings (all_langs previous_analysis current_analysis)).

(** The language and the numbers of a language line, without the
    percentage. *)
Definition lang_line_data (x : line) : option (string * Z * Z * Z) :=
  match x with
  | LangChange lang p c ch _ => Some (lang, p, c, ch)
  | _ => None
  end.

(** The arrow, the name and the numbers of a rank-change line, without the
    percentage. *)
Definition rank_line_data (x : line)
  : option (string * string * Z * Z * Z) :=
  match x with
  | RankChange dir nm pr cr ch _ => Some (dir, nm, pr, cr, ch)
  | _ => None
  end.

(** The percentage text shown for a zero delta. *)
Definition zero_pct_str (prev : Z) : string :=
  if prev =? 0 then "N/A" else if prev <? 0 then "-0.00%" else "+0.00%".

(** The calendar day of a [datetime]. *)
Definition day_of (t : Z) : Z := t / us_per_day.

(** A record of the kind the search API delivers: the [language] key is
    there, possibly with the value null. *)
Definition has_language (r : repo) : Prop := is_Some (language r).

(** The number of occurrences of [k] in [l]. *)
Definition count (k : string) (l : list string) : Z :=
  Z.of_nat (length (filter (λ x, x = k) l)).

(** A computation that leaves the records alone. *)
Definition keeps_store {A} (m : M A) : Prop :=
  ∀ w r w', m w = (r, w') → store w' = store w.

(** The line printed for a new project. *)
Definition new_project_line (h : loc → repo) (curr_dict : gmap string entry)
    (r : loc) : option line :=
  match curr_dict !! full_name (h r) with
  | Some ce => Some (NewProject (rank ce) (name (h r)) (stargazers_count (h r)))
  | None => None
  end.

(** The capture day a file name spells, if it spells one. *)
Definition capture_day (strptime : string → option Z) (file_path : string)
  : option Z :=
  strptime (slice_from_to_end 5 5 (basename file_path)).

(** The distance in calendar days between the target and a day. *)
Definition distance (target_date d : Z) : Z :=
  Z.abs (day_of target_date - d).

(** [(closest_file, min_diff)] is the first closest candidate among
    [seen], or nothing and infinity when [seen] has no candidate. *)
Definition best (strptime : string → option Z) (target_date : Z)
    (seen : list string) (closest_file : option string) (min_diff : ext)
  : Prop :=
  match closest_file, min_diff with
  | None, Inf => ∀ f d, f ∈ seen → capture_day strptime f = Some d → False
  | Some f, Fin v =>
      ∃ (i : nat) d,
        seen !! i = Some f ∧ capture_day strptime f = Some d ∧ distance target_date d = v
        ∧ ∀ (j : nat) f' d',
            seen !! j = Some f' → capture_day strptime f' = Some d' →
            v ≤ distance target_date d' ∧ ((j < i)%nat → v < distance target_date d')
  | _, _ => False
  end.

End Spec.

(* ===================================================================== *)
(** * The reports, the cache and the data files *)
(* ===================================================================== *)

(** The parts of [print_console_report], [save_markdown_report],
    [get_readme_content] and [main] that compute: the descriptions shown,
    the language table, the name of a cache file and the name of a data
    file.  Where the code measures or slices a [str] that may hold any
    character, the text is the list of its code points. *)
Module Report.
Import Py Bot.

(** A [str] as its code points. *)
Definition text : Type := list N.

(** ['无描述'] *)
Definition no_description : text := [26080; 25551; 36848]%N.

(** ["..."] *)
Definition dots : text := [46; 46; 46]%N.

(** [v or d] on an optional text: [None] and the empty text are falsy. *)
Definition or_text (v : option text) (d : text) : text :=
  match v with
  | None => d
  | Some [] => d
  | Some s => s
  end.


(** The description of [print_console_report]; [description] is
    [repo.get('description')], [None] for a missing key and for null. *)
Definition console_description (description : option text) : text :=
  let description := or_text description no_description in
  if (100 <? length description)%nat then take 100 description ++ dots
  else description.


(** [sorted(analysis_result['language_stats'].items(),
            key=lambda x: x[1], reverse=True)] *)
Definition sorted_stats (analysis_result : analysis) : list (string * Z) :=
  sorted snd Z.ltb true (language_stats analysis_result).

(** [lang if lang else 'N/A'] *)
Definition lang_display (lang : string) : string :=
  if decide (lang = "") then "N/A" else lang.

(** [lang_table] of [save_markdown_report]. *)
Definition lang_table (analysis_result : analysis) : list string :=
  "| 语言 | 项目数量 |"
  :: "| :--- | :------- |"
  :: ((λ x, "| " +:+ lang_display x.1 +:+ " | " +:+ pretty x.2
            +:+ "个项目 |")
      <$> sorted_stats analysis_result).

(** [s.replace('/', '__')] *)
Fixpoint replace_slash (s : string) : string :=
  match s with
  | EmptyString => EmptyString
  | String c s' =>
      if Ascii.eqb c "/"%char then String "_" (String "_" (replace_slash s'))
      else String c (replace_slash s')
  end.

(** [s.startswith('/')] *)
Definition starts_with_slash (s : string) : bool :=
  match s with
  | String c _ => Ascii.eqb c "/"%char
  | EmptyString => false
  end.

(** [s.endswith('/')] *)
Fixpoint ends_with_slash (s : string) : bool :=
  match s with
  | EmptyString => false
  | String c EmptyString => Ascii.eqb c "/"%char
  | String _ s' => ends_with_slash s'
  end.

(** [os.path.join(a, b)] on a POSIX system. *)
Definition path_join (a b : string) : string :=
  if starts_with_slash b then b
  else if decide (a = "") then a +:+ b
  else if ends_with_slash a then a +:+ b
  else a +:+ "/" +:+ b.

Definition README_CACHE_DIR : string := "readme_cache".

(** [cache_filename] of [get_readme_content]. *)
Definition cache_filename (repo_full_name : string) : string :=
  replace_slash repo_full_name +:+ ".md".

(** [cache_path] of [get_readme_content]. *)
Definition cache_path (repo_full_name : string) : string :=
  path_join README_CACHE_DIR (cache_filename repo_full_name).

(** [raw_data_path] of [main]:
    [os.path.join(data_dir, f"data_{today_str}.json")]. *)
Definition raw_data_path (data_dir today_str : string) : string :=
  path_join data_dir ("data_" +:+ today_str +:+ ".json").

(** ** The dates of [print_console_report] *)

(** A line [📅 label: shown]. *)
Inductive date_line := DateLine (label : string) (shown : string).

(** The error of reading a local variable that has no value yet. *)
Inductive name_error := UnboundLocalError (variable : string).

Inductive outcome (A : Type) :=
  | Returned (a : A)
  | Raised (e : name_error).
Arguments Returned {A} a.
Arguments Raised {A} e.

(** The two fields the loop reads with [repo.get(date_type)]: [None] for a
    missing key and for null. *)
Record dated := Dated {
  created_at : option string;
  updated_at : option string
}.

Section Dates.
(** [datetime.fromisoformat(date_str.replace('Z', '+00:00'))] followed by
    [strftime('%Y年%m月%d日')]: the date as it is shown, or [None] for the
    [ValueError] of [fromisoformat]; [strftime] is taken to succeed on
    every date that was parsed. *)
Variable show_date : string → option string.

(** The body of the loop over the two kinds of date.  [label] is the local
    variable of the function, [None] as long as nothing was assigned to
    it; the result is what the turn prints and the variable after it.  The
    handler of [ValueError] reads [label], which the [try] block assigns
    only after the date was parsed. *)
Definition date_turn (date_type : string) (date_str : option string)
    (label : option string) : list date_line * outcome (option string) :=
  match date_str with
  | None => ([], Returned label)
  | Some s =>
      if decide (s = "") then ([], Returned label)
      else
        match show_date s with
        | Some shown =>
            let label :=
              if decide (date_type = "created_at") then "创建时间"
              else "更新时间" in
            ([DateLine label shown], Returned (Some label))
        | None =>
            match label with
            | Some l => ([DateLine l s], Returned (Some l))
            | None => ([], Raised (UnboundLocalError "label"))
            end
        end
  end.

(** [for date_type in ['created_at', 'updated_at']: ...] on one record. *)
Definition record_dates (r : dated) (label : option string)
  : list date_line * outcome (option string) :=
  match date_turn "created_at" (created_at r) label with
  | (out, Returned label) =>
      match date_turn "updated_at" (updated_at r) label with
      | (out', res) => (out ++ out', res)
      end
  | (out, Raised e) => (out, Raised e)
  end.

(** The loop over the records, as far as the dates go. *)
Fixpoint report_dates (repos : list dated) (label : option string)
  : list date_line * outcome (option string) :=
  match repos with
  | [] => ([], Returned label)
  | r :: rest =>
      match record_dates r label with
      | (out, Returned label) =>
          match report_dates rest label with
          | (out', res) => (out ++ out', res)
          end
      | (out, Raised e) => (out, Raised e)
      end
  end.
End Dates.

End Report.

(* ===================================================================== *)
(** * Further notions *)
(* ===================================================================== *)

Module Notions.
Import Py Bot Spec Report.

(** The distinct elements of a list, each at the place where it is met
    first. *)
Fixpoint first_seen (l : list string) : list string :=
  match l with
  | [] => []
  | x :: l' => x :: filter (λ y, y ≠ x) (first_seen l')
  end.

(** The sum of the counts of a histogram. *)
Definition count_sum (d : dict Z) : Z := foldr Z.add 0 (snd <$> d).

(** The sum of the deltas of a list of rank changes. *)
Definition delta_sum (l : list rank_change) : Z :=
  foldr Z.add 0 (rc_change <$> l).

(** The data of a language line with its percentage. *)
Definition lang_line (lang : string) (p c : Z) (pct_str : string) : line :=
  LangChange lang p c (c - p) pct_str.

(** The rank an index gives an identifier, 0 when it has none. *)
Definition rank_in (d : gmap string entry) (k : string) : Z :=
  match d !! k with
  | Some e => rank e
  | None => 0
  end.

(** The sum of the ranks an index gives the identifiers [ids]. *)
Definition rank_sum (d : gmap string entry) (ids : list string) : Z :=
  foldr Z.add 0 (rank_in d <$> ids).

(** The records of a list of rank changes. *)
Definition moved (l : list rank_change) : list loc := rc_repo <$> l.

(** The change of the count of a language between two summaries. *)
Definition lang_delta (pa ca : analysis) (lang : string) : Z :=
  dict_get (language_stats ca) lang 0 - dict_get (language_stats pa) lang 0.

(** The sum of the changes shown on the language lines. *)
Definition lang_delta_sum (pa ca : analysis) : Z :=
  foldr Z.add 0 (lang_delta pa ca <$> changed_langs pa ca).

(** The sum of the counts a histogram gives the keys [L]. *)
Definition get_sum (d : dict Z) (L : list string) : Z :=
  foldr Z.add 0 ((λ k, dict_get d k 0) <$> L).

(** A date field that the report shows: present and not empty. *)
Definition shown_date (d : option string) : option string :=
  match d with
  | Some s => if decide (s = "") then None else Some s
  | None => None
  end.

(** The dates the report shows, in the order it meets them. *)
Definition present_dates (repos : list dated) : list string :=
  r ← repos; omap shown_date [created_at r; updated_at r].

End Notions.

(* ===================================================================== *)
(** * Facts about the primitives *)
(* ===================================================================== *)

Module PyFacts.
Import Py.

(** ** [sorted] is a stable sort *)

Section SortedFacts.
Context {A K : Type} (key : A → K) (lt : K → K → bool) (reverse : bool).

Local Abbreviation bf := (before key lt reverse).
Local Abbreviation ins := (insert_stable key lt reverse).
Local Abbreviation srt := (sorted key lt reverse).

Lemma insert_stable_perm x s : ins x s ≡ₚ x :: s.
Proof.
  induction s as [|y s IH]; simpl; [done|].
  destruct (bf y x); [|done].
  rewrite IH. apply Permutation_swap.
Qed.

Lemma sorted_perm l : srt l ≡ₚ l.
Proof.
  induction l as [|x l IH]; simpl; [done|].
  by rewrite insert_stable_perm, IH.
Qed.

Lemma sorted_length l : length (srt l) = length l.
Proof. apply Permutation_length, sorted_perm. Qed.

Lemma sorted_nil_inv l : srt l = [] → l = [].
Proof.
  intros E. apply Permutation_nil_r. rewrite <- E. symmetry. apply sorted_perm.
Qed.

(** Elements that need not be ordered with respect to each other keep
    their order: the sort is stable. *)
Lemma insert_stable_filter (P : A → Prop) `{!∀ x, Decision (P x)} x s :
  (∀ a b, P a → P b → bf a b = false) →
  filter P (ins x s) = filter P (x :: s).
Proof.
  intros HP. induction s as [|y s IH]; simpl; [done|].
  destruct (bf y x) eqn:E; [|done].
  rewrite filter_cons, IH, !filter_cons.
  destruct (decide (P y)) as [Hy|Hy], (decide (P x)) as [Hx|Hx]; try done.
  rewrite (HP y x Hy Hx) in E. done.
Qed.

Lemma sorted_filter (P : A → Prop) `{!∀ x, Decision (P x)} l :
  (∀ a b, P a → P b → bf a b = false) →
  filter P (srt l) = filter P l.
Proof.
  intros HP. induction l as [|x l IH]; simpl; [done|].
  rewrite insert_stable_filter by done.
  by rewrite !filter_cons, IH.
Qed.

(** When [lt] is a strict weak order, the result is ordered: no element
    has to come strictly before one that precedes it. *)
Section Ordered.
Hypothesis lt_irrefl : ∀ a, lt a a = false.
Hypothesis lt_trans : ∀ a b c, lt a b = true → lt b c = true → lt a c = true.
Hypothesis lt_cotrans :
  ∀ a b c, lt a c = true → lt a b = true ∨ lt b c = true.

Lemma before_asym y x : bf y x = true → bf x y = false.
Proof.
  unfold before. destruct reverse; intros H.
  all: match goal with |- ?t = false => destruct t eqn:E end; [|done].
  all: rewrite <- (lt_irrefl (key x)); symmetry; eauto.
Qed.

Lemma before_cotrans z y x :
  bf z x = true → bf z y = true ∨ bf y x = true.
Proof.
  unfold before. destruct reverse; intros H;
    destruct (lt_cotrans _ (key y) _ H); auto.
Qed.

Lemma insert_stable_sorted x s :
  StronglySorted (λ a b, bf b a = false) s →
  StronglySorted (λ a b, bf b a = false) (ins x s).
Proof.
  induction 1 as [|y s Hs IH Hy]; simpl.
  - repeat constructor.
  - destruct (bf y x) eqn:E.
    + constructor; [done|].
      rewrite insert_stable_perm. constructor; [|done].
      by apply before_asym.
    + constructor; [by constructor|].
      constructor; [done|].
      rewrite Forall_forall in Hy |- *. intros z Hz.
      destruct (bf z x) eqn:Ez; [|done].
      destruct (before_cotrans _ y _ Ez) as [H|H]; [|congruence].
      rewrite (Hy z Hz) in H. done.
Qed.

Lemma sorted_sorted l : StronglySorted (λ a b, bf b a = false) (srt l).
Proof.
  induction l as [|x l IH]; simpl; [constructor|].
  by apply insert_stable_sorted.
Qed.
End Ordered.
End SortedFacts.

Lemma StronglySorted_weaken {A} (R S : A → A → Prop) (l : list A) :
  (∀ x y, R x y → S x y) → StronglySorted R l → StronglySorted S l.
Proof.
  intros HRS. induction 1 as [|x l _ IH Hx]; constructor; [done|].
  eapply Forall_impl; eauto.
Qed.

Lemma filter_iff_in {A} (P Q : A → Prop) `{!∀ x, Decision (P x)}
    `{!∀ x, Decision (Q x)} (l : list A) :
  (∀ x, x ∈ l → P x ↔ Q x) → filter P l = filter Q l.
Proof.
  induction l as [|x l IH]; intros HPQ; [done|].
  rewrite !filter_cons, IH by (intros; by apply HPQ, list_elem_of_further).
  pose proof (HPQ x (list_elem_of_here _ _)).
  repeat case_decide; tauto.
Qed.

(** ** The order of strings *)








Lemma Z_ltb_cotrans a b c :
  (a <? c) = true → (a <? b) = true ∨ (b <? c) = true.
Proof. rewrite !Z.ltb_lt. lia. Qed.

Lemma Z_ltb_trans a b c :
  (a <? b) = true → (b <? c) = true → (a <? c) = true.
Proof. rewrite !Z.ltb_lt. lia. Qed.

End PyFacts.

(* ===================================================================== *)
(** * Facts about dictionaries and counters *)
(* ===================================================================== *)

Module DictFacts.
Import Py Bot Spec.

Section Dict.
Context {V : Type}.
Implicit Types (d : dict V) (k : string) (v : V).

Lemma dict_get_set d k v k' dflt :
  dict_get (dict_set d k v) k' dflt
  = if decide (k = k') then v else dict_get d k' dflt.
Proof.
  induction d as [|[k0 v0] d IH]; csimpl.
  - repeat case_decide; congruence.
  - destruct (decide (k0 = k)) as [->|]; csimpl.
    + repeat case_decide; congruence.
    + rewrite IH. repeat case_decide; congruence.
Qed.

Lemma dict_keys_set d k v :
  dict_keys (dict_set d k v)
  = if decide (k ∈ dict_keys d) then dict_keys d else dict_keys d ++ [k].
Proof.
  unfold dict_keys. induction d as [|[k0 v0] d IH]; csimpl.
  - done.
  - destruct (decide (k0 = k)) as [->|Hne]; csimpl.
    + rewrite decide_True by apply list_elem_of_here. done.
    + rewrite IH. destruct (decide (k ∈ fst <$> d)) as [Hin|Hin].
      * rewrite decide_True by (by apply list_elem_of_further). done.
      * rewrite decide_False; [done|].
        rewrite elem_of_cons. intros [?|?]; congruence.
Qed.

Lemma dict_set_NoDup d k v :
  NoDup (dict_keys d) → NoDup (dict_keys (dict_set d k v)).
Proof.
  intros Hd. rewrite dict_keys_set. case_decide; [done|].
  apply NoDup_app. split_and!; [done| |apply NoDup_singleton].
  intros x Hx ->%list_elem_of_singleton. done.
Qed.

Lemma dict_set_fresh d k v :
  k ∉ dict_keys d → dict_set d k v = d ++ [(k, v)].
Proof.
  unfold dict_keys. induction d as [|[k0 v0] d IH]; csimpl; [done|].
  rewrite not_elem_of_cons. intros [Hne Hin].
  rewrite decide_False by done. by rewrite IH.
Qed.

(** In a dictionary the value of a key is the one of its item. *)
Lemma dict_get_elem_of d k v dflt :
  NoDup (dict_keys d) → (k, v) ∈ d → dict_get d k dflt = v.
Proof.
  unfold dict_keys. induction d as [|[k0 v0] d IH]; csimpl.
  - intros _ H. by apply elem_of_nil in H.
  - rewrite NoDup_cons, elem_of_cons. intros [Hk0 Hd] [[= -> ->]|Hin].
    + by rewrite decide_True.
    + rewrite decide_False; [by apply IH|].
      intros ->. apply Hk0. apply list_elem_of_fmap. by exists (k, v).
Qed.

Lemma dict_get_absent d k dflt :
  k ∉ dict_keys d → dict_get d k dflt = dflt.
Proof.
  unfold dict_keys. induction d as [|[k0 v0] d IH]; csimpl; [done|].
  rewrite not_elem_of_cons. intros [Hne Hin].
  rewrite decide_False by done. by apply IH.
Qed.

Lemma dict_get_present d k dflt :
  k ∈ dict_keys d → (k, dict_get d k dflt) ∈ d.
Proof.
  unfold dict_keys. induction d as [|[k0 v0] d IH]; csimpl.
  - intros H. by apply elem_of_nil in H.
  - destruct (decide (k0 = k)) as [->|Hne].
    + intros _. apply list_elem_of_here.
    + rewrite elem_of_cons. intros [?|Hin]; [congruence|].
      apply list_elem_of_further. by apply IH.
Qed.

(** The value of a key does not depend on the order of the items. *)
Lemma dict_get_perm d d' k dflt :
  NoDup (dict_keys d) → d ≡ₚ d' → dict_get d k dflt = dict_get d' k dflt.
Proof.
  intros Hd Hp.
  assert (Hd' : NoDup (dict_keys d')).
  { unfold dict_keys in *. by rewrite <- Hp. }
  destruct (decide (k ∈ dict_keys d)) as [Hin|Hin].
  - symmetry. apply dict_get_elem_of; [done|].
    rewrite <- Hp. by apply dict_get_present.
  - rewrite !dict_get_absent; [done| |done].
    unfold dict_keys in *. by rewrite <- Hp.
Qed.

(** Building a dictionary from items with distinct keys keeps them. *)
Lemma dict_of_pairs_from acc (pairs : list (string * V)) :
  NoDup (dict_keys (acc ++ pairs)) →
  fold_left (λ d kv, dict_set d kv.1 kv.2) pairs acc = acc ++ pairs.
Proof.
  revert acc. induction pairs as [|[k v] pairs IH]; intros acc Hnd; csimpl.
  - by rewrite app_nil_r.
  - rewrite dict_set_fresh.
    + rewrite IH; rewrite <- app_assoc; done.
    + unfold dict_keys in *. rewrite fmap_app in Hnd. simpl in Hnd.
      apply NoDup_app in Hnd as (_ & Hnd & _).
      intros Hin. apply (Hnd _ Hin). apply list_elem_of_here.
Qed.

Lemma dict_of_pairs_id (pairs : list (string * V)) :
  NoDup (dict_keys pairs) → dict_of_pairs pairs = pairs.
Proof. intros H. unfold dict_of_pairs. by rewrite dict_of_pairs_from. Qed.
End Dict.

Lemma Counter_from (l : list string) (acc : dict Z) :
  NoDup (dict_keys acc) →
  let c := fold_left (λ c x, dict_set c x (dict_get c x 0 + 1)) l acc in
  NoDup (dict_keys c)
  ∧ (∀ k, dict_get c k 0 = dict_get acc k 0 + count k l)
  ∧ (∀ k, k ∈ dict_keys c ↔ k ∈ dict_keys acc ∨ k ∈ l).
Proof.
  revert acc. induction l as [|x l IH]; intros acc Hnd; csimpl.
  - split_and!; [done|intros; unfold count; csimpl; lia|].
    intros k. rewrite elem_of_nil. tauto.
  - destruct (IH (dict_set acc x (dict_get acc x 0 + 1))) as (H1 & H2 & H3).
    { by apply dict_set_NoDup. }
    split_and!; [done| |].
    + intros k. rewrite H2, dict_get_set. unfold count.
      rewrite filter_cons.
      repeat case_decide; csimpl; try congruence; subst; lia.
    + intros k. rewrite H3, dict_keys_set, elem_of_cons.
      case_decide as Hx.
      * split; [tauto|]. intros [?|[->|?]]; tauto.
      * rewrite elem_of_app, list_elem_of_singleton. tauto.
Qed.

Lemma Counter_spec (l : list string) :
  NoDup (dict_keys (Counter l))
  ∧ (∀ k, dict_get (Counter l) k 0 = count k l)
  ∧ (∀ k, k ∈ dict_keys (Counter l) ↔ k ∈ l).
Proof.
  destruct (Counter_from l []) as (H1 & H2 & H3); [constructor|].
  split_and!; [done|intros k; by rewrite H2| ].
  intros k. rewrite H3, elem_of_nil. tauto.
Qed.

Lemma sum_from (l : list Z) (a : Z) :
  fold_left Z.add l a = a + fold_right Z.add 0 l.
Proof.
  revert a. induction l as [|x l IH]; intros a; csimpl; [lia|].
  rewrite IH. lia.
Qed.

End DictFacts.

(* ===================================================================== *)
(** * The aggregate analyzer *)
(* ===================================================================== *)

Module AnalyzerFacts.
Import Py Bot Spec PyFacts DictFacts.

Lemma language_list_ok (repos : list repo) :
  Forall has_language repos →
  rmap (λ repo, rbind (getitem_language repo)
                  (λ lang, rret (or_str lang "N/A"))) repos
  = inr (normalized_language <$> repos).
Proof.
  induction 1 as [|r repos [v Hv] _ IH]; [done|].
  simpl. rewrite IH. unfold getitem_language, normalized_language.
  rewrite Hv. simpl. by destruct v.
Qed.

Lemma language_list_fail (repos : list repo) :
  Exists (λ r, language r = None) repos →
  rmap (λ repo, rbind (getitem_language repo)
                  (λ lang, rret (or_str lang "N/A"))) repos
  = inl (KeyError "language").
Proof.
  induction 1 as [r repos Hr|r repos _ IH]; simpl.
  - unfold getitem_language. by rewrite Hr.
  - rewrite IH. unfold getitem_language. by destruct (language r).
Qed.

Lemma sum_total (f : repo → Z) (repos : list repo) :
  sum (f <$> repos) = total f repos.
Proof.
  unfold sum. rewrite sum_from, Z.add_0_l.
  induction repos as [|r repos IH]; csimpl; [done|]. by rewrite IH.
Qed.

Lemma count_normalized k (repos : list repo) :
  count k (normalized_language <$> repos) = occurrences k repos.
Proof.
  unfold count, occurrences. f_equal.
  induction repos as [|r repos IH]; csimpl; [done|].
  rewrite !filter_cons. repeat case_decide; simpl; congruence.
Qed.

Lemma most_common_perm (c : dict Z) : most_common c ≡ₚ c.
Proof. apply sorted_perm. Qed.

Lemma most_common_sorted (c : dict Z) :
  StronglySorted (λ x y, y.2 ≤ x.2) (most_common c).
Proof.
  eapply StronglySorted_weaken;
    [|apply (sorted_sorted snd Z.ltb true);
      [apply Z.ltb_irrefl|apply Z_ltb_trans|apply Z_ltb_cotrans]].
  intros x y. unfold before. rewrite Z.ltb_ge. done.
Qed.

(** The summary of a non-empty snapshot whose records carry the language
    key. *)
Lemma analyze_data_ok (repos : list repo) :
  repos ≠ [] → Forall has_language repos →
  analyze_data repos
  = inr (Some {| repo_count := Z.of_nat (length repos);
                 total_stars := total stargazers_count repos;
                 total_forks := total (λ r, default 0 (forks_count r)) repos;
                 language_stats :=
                   most_common (Counter (normalized_language <$> repos)) |}).
Proof.
  intros Hne Hl. unfold analyze_data. destruct repos as [|r repos]; [done|].
  rewrite language_list_ok by done. cbn [rbind rret].
  rewrite !sum_total, dict_of_pairs_id; [done|].
  unfold dict_keys. rewrite most_common_perm.
  apply (Counter_spec (normalized_language <$> r :: repos)).
Qed.

Lemma histogram_spec (repos : list repo) :
  let h := most_common (Counter (normalized_language <$> repos)) in
  NoDup (dict_keys h)
  ∧ (∀ k, dict_get h k 0 = occurrences k repos)
  ∧ (∀ k, k ∈ dict_keys h ↔ 0 < occurrences k repos)
  ∧ StronglySorted (λ x y, y.2 ≤ x.2) h.
Proof.
  destruct (Counter_spec (normalized_language <$> repos)) as (Hnd & Hget & Hin).
  simpl. split_and!.
  - unfold dict_keys. by rewrite most_common_perm.
  - intros k. rewrite <- count_normalized, <- Hget.
    symmetry. apply dict_get_perm; [done|]. symmetry. apply most_common_perm.
  - intros k. unfold dict_keys. rewrite most_common_perm.
    fold (dict_keys (Counter (normalized_language <$> repos))).
    rewrite Hin. unfold occurrences.
    rewrite list_elem_of_fmap. split.
    + intros (r & -> & Hr).
      assert (r ∈ filter (λ r0, normalized_language r0 = normalized_language r) repos)
        as Hf by (by apply list_elem_of_filter).
      destruct (filter _ repos); [by apply elem_of_nil in Hf|simpl; lia].
    + intros Hpos.
      destruct (filter (λ r, normalized_language r = k) repos) as [|r l] eqn:E;
        [simpl in Hpos; lia|].
      assert (Hr : r ∈ filter (λ r, normalized_language r = k) repos)
        by (rewrite E; apply list_elem_of_here).
      apply list_elem_of_filter in Hr as [Hk Hr]. eauto.
  - apply most_common_sorted.
Qed.

End AnalyzerFacts.

(* ===================================================================== *)
(** * Running the loops of the comparator *)
(* ===================================================================== *)

Module LoopFacts.
Import Py Bot Spec PyFacts DictFacts.

Local Open Scope m_scope.

(** ** Sequencing *)

Lemma bind_ok {A B} (m : M A) (f : A → M B) w a w' :
  m w = (inr a, w') → bind m f w = f a w'.
Proof. unfold bind. by intros ->. Qed.

Lemma bind_raise {A B} (m : M A) (f : A → M B) w e w' :
  m w = (inl e, w') → bind m f w = (inl e, w').
Proof. unfold bind. by intros ->. Qed.

Lemma bind_inv {A B} (m : M A) (f : A → M B) w b w'' :
  bind m f w = (inr b, w'') →
  ∃ a w', m w = (inr a, w') ∧ f a w' = (inr b, w'').
Proof.
  unfold bind. destruct (m w) as [[e|a] w']; [done|]. eauto.
Qed.

Lemma keeps_store_ret {A} (a : A) : keeps_store (ret a).
Proof. by intros w r w' [= _ <-]. Qed.

Lemma keeps_store_lift {A} (x : result A) : keeps_store (lift x).
Proof. by intros w r w' [= _ <-]. Qed.

Lemma keeps_store_print x : keeps_store (print x).
Proof. by intros w r w' [= _ <-]. Qed.

Lemma keeps_store_getitem {A} (key : repo → A) r : keeps_store (getitem key r).
Proof. by intros w r0 w' [= _ <-]. Qed.

Lemma keeps_store_getitem_prev_stars r : keeps_store (getitem_prev_stars r).
Proof.
  intros w r0 w'. unfold getitem_prev_stars.
  by destruct (prev_stars _); intros [= _ <-].
Qed.

Lemma keeps_store_index_getitem d k : keeps_store (index_getitem d k).
Proof.
  unfold index_getitem. destruct (d !! k);
    [apply keeps_store_ret|apply keeps_store_lift].
Qed.

Lemma keeps_store_bind {A B} (m : M A) (f : A → M B) :
  keeps_store m → (∀ a, keeps_store (f a)) → keeps_store (bind m f).
Proof.
  intros Hm Hf w r w''. unfold bind.
  destruct (m w) as [[e|a] w'] eqn:E.
  - intros [= _ <-]. eauto.
  - intros H. rewrite (Hf _ _ _ _ H). eauto.
Qed.

Lemma keeps_store_for_each {A} (l : list A) (body : A → M unit) :
  (∀ x, keeps_store (body x)) → keeps_store (for_each l body).
Proof.
  intros Hb. induction l as [|x l IH]; simpl.
  - apply keeps_store_ret.
  - apply keeps_store_bind; auto.
Qed.

Lemma keeps_store_comprehension {A} (l : list A) (keep : A → M bool) :
  (∀ x, keeps_store (keep x)) → keeps_store (comprehension l keep).
Proof.
  intros Hb. induction l as [|x l IH]; simpl.
  - apply keeps_store_ret.
  - apply keeps_store_bind; [done|]. intros b.
    apply keeps_store_bind; [done|]. intros tl. apply keeps_store_ret.
Qed.

Lemma keeps_store_pct (prev change : Z) :
  keeps_store
    (if negb (prev =? 0)
     then let* q := lift (int_truediv change prev) in
          ret (float_mul q (float_of_int 100))
     else ret float_inf).
Proof.
  destruct (negb _); [|apply keeps_store_ret].
  apply keeps_store_bind; [apply keeps_store_lift|].
  intros q. apply keeps_store_ret.
Qed.

Lemma keeps_store_format_change prev curr label :
  keeps_store (format_change prev curr label).
Proof.
  apply keeps_store_bind; [apply keeps_store_pct|].
  intros q. apply keeps_store_print.
Qed.

Lemma keeps_store_language_change pa ca lang :
  keeps_store (language_change pa ca lang).
Proof.
  unfold language_change. destruct (negb _); [|apply keeps_store_ret].
  apply keeps_store_bind; [apply keeps_store_pct|].
  intros q. apply keeps_store_print.
Qed.

Lemma keeps_store_print_rank_change x : keeps_store (print_rank_change x).
Proof.
  destruct x as [[[repo pr] cr] ch]. unfold print_rank_change.
  apply keeps_store_bind; [apply keeps_store_getitem|]. intros n.
  apply keeps_store_bind; [apply keeps_store_getitem_prev_stars|]. intros p.
  apply keeps_store_bind; [apply keeps_store_pct|]. intros q.
  apply keeps_store_bind; [apply keeps_store_getitem|]. intros nm.
  apply keeps_store_print.
Qed.

(** ** The identity index *)

Lemma index_loop_run repos i d w :
  index_loop repos i d w = (inr (index_from (store w) repos i d), w).
Proof.
  revert i d. induction repos as [|r repos IH]; intros i d; simpl; [done|].
  unfold bind, getitem. apply IH.
Qed.

Lemma index_from_ext h h' repos i d :
  (∀ l, full_name (h l) = full_name (h' l)) →
  (∀ l, stargazers_count (h l) = stargazers_count (h' l)) →
  index_from h repos i d = index_from h' repos i d.
Proof.
  intros Hf Hs. revert i d.
  induction repos as [|r repos IH]; intros i d; simpl; [done|].
  by rewrite Hf, Hs, IH.
Qed.

Lemma index_from_notin h repos i (d : gmap string entry) k :
  k ∉ identifiers h repos → index_from h repos i d !! k = d !! k.
Proof.
  revert i d. induction repos as [|r repos IH]; intros i d; csimpl; [done|].
  rewrite not_elem_of_cons. intros [Hne Hin].
  rewrite IH by done. by rewrite lookup_insert_ne.
Qed.

Lemma index_from_dom h repos i (d : gmap string entry) k :
  k ∈ dom (index_from h repos i d) ↔ k ∈ dom d ∨ k ∈ identifiers h repos.
Proof.
  revert i d. induction repos as [|r repos IH]; intros i d; csimpl.
  - rewrite elem_of_nil. tauto.
  - rewrite IH, dom_insert, elem_of_union, elem_of_singleton, elem_of_cons.
    tauto.
Qed.

Lemma index_of_dom h repos k :
  k ∈ dom (index_of h repos) ↔ k ∈ identifiers h repos.
Proof.
  unfold index_of. rewrite index_from_dom, dom_empty, elem_of_empty. tauto.
Qed.



(** ** New entrants *)

Lemma new_projects_run (prev_dict : gmap string entry) repos w :
  select_new_projects prev_dict repos w
  = (inr (filter (λ r, full_name (store w r) ∉ dom prev_dict) repos), w).
Proof.
  unfold select_new_projects. induction repos as [|r repos IH]; simpl; [done|].
  unfold bind at 1 2. unfold getitem at 1. unfold ret at 1.
  rewrite bind_ok with (1 := IH). unfold ret. rewrite filter_cons.
  by destruct (decide _) as [H|H];
    [rewrite bool_decide_eq_true_2|rewrite bool_decide_eq_false_2].
Qed.

(** ** The rank-change loop *)

Lemma omap_pointwise {A B} (f g : A → option B) (l : list A) :
  (∀ x, f x = g x) → omap f l = omap g l.
Proof.
  intros Hfg. induction l as [|x l IH]; csimpl; [done|].
  by rewrite Hfg, IH.
Qed.

Lemma rank_change_of_ext h h' pd cd r :
  (∀ l, full_name (h l) = full_name (h' l)) →
  rank_change_of h pd cd r = rank_change_of h' pd cd r.
Proof. intros Hf. unfold rank_change_of. by rewrite Hf. Qed.

Lemma set_prev_stars_idem x v :
  set_prev_stars (set_prev_stars x v) v = set_prev_stars x v.
Proof. done. Qed.

Lemma full_name_stamp (h : loc → repo) r v l :
  full_name ((<[r := set_prev_stars (h r) v]> h) l) = full_name (h l).
Proof.
  destruct (decide (r = l)) as [->|Hne].
  - by rewrite fn_lookup_insert.
  - by rewrite fn_lookup_insert_ne.
Qed.

(** The loop never fails on a current index that knows every record it
    visits; it appends the entries of the visited records in their order
    and stamps exactly the records that got one. *)
Lemma rank_loop_run (pd cd : gmap string entry) repos acc w :
  (∀ r, r ∈ repos → full_name (store w r) ∈ dom cd) →
  ∃ w', rank_loop pd cd repos acc w
        = (inr (acc ++ omap (rank_change_of (store w) pd cd) repos), w')
      ∧ stdout w' = stdout w
      ∧ ∀ l, store w' l = stamped (store w) pd cd repos l.
Proof.
  revert acc w. induction repos as [|r repos IH]; intros acc w Hcd.
  - exists w. simpl. rewrite app_nil_r. split_and!; [done..|].
    intros l. unfold stamped. destruct (pd !! _); [|done].
    rewrite decide_False; [done|]. intros [H _]. by apply elem_of_nil in H.
  - assert (Hr : full_name (store w r) ∈ dom cd)
      by (apply Hcd, list_elem_of_here).
    apply elem_of_dom in Hr as [ce Hce].
    assert (Hrest : ∀ r', r' ∈ repos → full_name (store w r') ∈ dom cd)
      by (intros; by apply Hcd, list_elem_of_further).
    simpl rank_loop. unfold bind at 1. unfold getitem at 1.
    cbn [omap list_omap]. unfold rank_change_of at 1.
    destruct (decide (full_name (store w r) ∈ dom pd)) as [Hin|Hin].
    + apply elem_of_dom in Hin as [pe Hpe].
      unfold index_getitem. rewrite Hpe, Hce.
      unfold bind at 1 2. unfold ret at 1 2.
      destruct (decide (rank pe = rank ce)) as [Heq|Hne].
      * rewrite Heq, Z.eqb_refl. cbn [negb]. cbv beta iota.
        destruct (IH acc w Hrest) as (w' & Hrun & Hout & Hst).
        exists w'. split_and!; [done..|].
        intros l. rewrite Hst. unfold stamped.
        destruct (pd !! full_name (store w l)) eqn:El; [|done].
        destruct (decide (l = r)) as [->|Hlr].
        { rewrite !decide_False; [done| |].
          - intros [_ [x Hx]]. unfold rank_change_of in Hx.
            rewrite Hpe, Hce, decide_True in Hx by done. done.
          - intros [_ [x Hx]]. unfold rank_change_of in Hx.
            rewrite Hpe, Hce, decide_True in Hx by done. done. }
        apply decide_ext. rewrite elem_of_cons.
        split; intros [Hl Hs]; (split; [|done]); [by right|].
        by destruct Hl as [->|Hl].
      * rewrite (proj2 (Z.eqb_neq _ _) Hne).
        unfold bind at 1 2. unfold ret at 1. unfold setitem_prev_stars at 1.
        cbn [negb]. cbv beta iota.
        set (w1 := {| store := <[r := set_prev_stars (store w r) (stars pe)]> (store w);
                      stdout := stdout w |}).
        assert (Hfn : ∀ l, full_name (store w1 l) = full_name (store w l))
          by (intros l; apply full_name_stamp).
        destruct (IH (acc ++ [(r, rank pe, rank ce, rank pe - rank ce)]) w1)
          as (w' & Hrun & Hout & Hst).
        { intros r' Hr'. rewrite Hfn. by apply Hrest. }
        exists w'. split_and!; [|done|].
        { rewrite Hrun. do 2 f_equal. rewrite <- app_assoc. simpl. f_equal.
          f_equal. apply omap_pointwise.
          intros r'. by apply rank_change_of_ext. }
        intros l. rewrite Hst. unfold stamped. rewrite Hfn.
        destruct (pd !! full_name (store w l)) as [pe'|] eqn:El.
        2:{ subst w1. simpl. rewrite fn_lookup_insert_ne; [done|].
            intros ->. congruence. }
        rewrite (rank_change_of_ext (store w1) (store w)) by done.
        destruct (decide (l = r)) as [->|Hlr].
        { assert (pe' = pe) as -> by congruence.
          assert (Hrc : is_Some (rank_change_of (store w) pd cd r)).
          { unfold rank_change_of. rewrite Hpe, Hce, decide_False by done.
            eauto. }
          rewrite (decide_True (P := r ∈ r :: repos ∧ _))
            by (split; [apply list_elem_of_here|done]).
          subst w1. simpl. rewrite fn_lookup_insert.
          by destruct (decide _). }
        subst w1. simpl. rewrite fn_lookup_insert_ne by done.
        apply decide_ext. rewrite elem_of_cons.
        split; intros [Hl Hs]; (split; [|done]); [by right|].
        by destruct Hl as [->|Hl].
    + destruct (IH acc w Hrest) as (w' & Hrun & Hout & Hst).
      apply not_elem_of_dom in Hin. rewrite Hin.
      exists w'. split_and!; [done..|].
      intros l. rewrite Hst. unfold stamped.
      destruct (pd !! full_name (store w l)) eqn:El; [|done].
      destruct (decide (l = r)) as [->|Hlr]; [congruence|].
      apply decide_ext. rewrite elem_of_cons.
        split; intros [Hl Hs]; (split; [|done]); [by right|].
        by destruct Hl as [->|Hl].
Qed.

(** When no record has an entry, the loop leaves the state as it is. *)
Lemma rank_loop_idle (pd cd : gmap string entry) repos acc w :
  (∀ r, r ∈ repos → full_name (store w r) ∈ dom cd) →
  (∀ r, r ∈ repos → rank_change_of (store w) pd cd r = None) →
  rank_loop pd cd repos acc w = (inr acc, w).
Proof.
  revert acc. induction repos as [|r repos IH]; intros acc Hcd Hnone; [done|].
  assert (Hr : full_name (store w r) ∈ dom cd)
    by (apply Hcd, list_elem_of_here).
  apply elem_of_dom in Hr as [ce Hce].
  specialize (Hnone r (list_elem_of_here _ _)) as Hn.
  unfold rank_change_of in Hn. rewrite Hce in Hn.
  simpl rank_loop. unfold bind at 1. unfold getitem at 1.
  destruct (decide (full_name (store w r) ∈ dom pd)) as [Hin|Hin].
  - apply elem_of_dom in Hin as [pe Hpe]. rewrite Hpe in Hn.
    unfold index_getitem. rewrite Hpe, Hce.
    unfold bind at 1 2. unfold ret at 1 2.
    destruct (decide (rank pe = rank ce)) as [Heq|Hne]; [|done].
    rewrite Heq, Z.eqb_refl. cbn [negb]. cbv beta iota.
    apply IH; intros; [apply Hcd|apply Hnone]; by apply list_elem_of_further.
  - apply IH; intros; [apply Hcd|apply Hnone]; by apply list_elem_of_further.
Qed.

End LoopFacts.

(* ===================================================================== *)
(** * Integer division stays in range *)
(* ===================================================================== *)

(** A quotient of two integers is rounded to a finite float as long as the
    dividend has at most 1023 binary digits: [OverflowError] needs an
    integer beyond [2^1023]. *)
Module FloatFacts.
Import Py.

Lemma digits2_pos_size p : digits2_pos p = Pos.size p.
Proof. induction p; simpl; congruence. Qed.

Lemma Zdigits2_nonneg m : 0 ≤ Zdigits2 m.
Proof. destruct m; simpl; lia. Qed.

Lemma Zdigits2_gt m : 0 ≤ m → m < 2 ^ Zdigits2 m.
Proof.
  destruct m as [|p|p]; simpl; [lia| |lia]. intros _.
  rewrite digits2_pos_size.
  pose proof (Pos.size_gt p) as H.
  rewrite <- Pos2Z.inj_pow. lia.
Qed.

Lemma Zdigits2_le m k : 0 ≤ m → 0 ≤ k → m < 2 ^ k → Zdigits2 m ≤ k.
Proof.
  destruct m as [|p|p]; simpl; [lia| |lia]. intros _ Hk Hlt.
  rewrite digits2_pos_size.
  pose proof (Pos.size_le p) as H.
  destruct (Z.le_gt_cases (Z.pos (Pos.size p)) k) as [|Hgt]; [done|].
  exfalso.
  assert (2 ^ (k + 1) ≤ 2 ^ Z.pos (Pos.size p)) by (apply Z.pow_le_mono_r; lia).
  assert (Z.pos (2 ^ Pos.size p) ≤ Z.pos p~0) by lia.
  rewrite Pos2Z.inj_pow in *. rewrite Z.pow_add_r in * by lia. lia.
Qed.

Lemma shr_1_m r : 0 ≤ shr_m r → shr_m (shr_1 r) = shr_m r / 2.
Proof.
  destruct r as [m rb s]. unfold shr_1, shr_m.
  destruct m as [|[p|p|]|p]; try lia; intros _; try done.
  - apply Z.div_unique with 1; lia.
  - apply Z.div_unique with 0; lia.
Qed.

Lemma pow2_xO p : 2 ^ Z.pos p~0 = 2 ^ Z.pos p * 2 ^ Z.pos p.
Proof. rewrite <- Z.pow_add_r by lia. f_equal. lia. Qed.

Lemma pow2_xI p : 2 ^ Z.pos p~1 = 2 * (2 ^ Z.pos p * 2 ^ Z.pos p).
Proof.
  rewrite <- Z.pow_add_r by lia. rewrite <- (Z.pow_succ_r 2) by lia.
  f_equal. lia.
Qed.

Lemma iter_shr_1_m p r :
  0 ≤ shr_m r → shr_m (SpecFloat.iter_pos shr_1 p r) = shr_m r / 2 ^ Z.pos p.
Proof.
  revert r. induction p as [p IH|p IH|]; intros r Hr; cbn [SpecFloat.iter_pos].
  - assert (H1 : 0 ≤ shr_m (shr_1 r))
      by (rewrite shr_1_m by done; apply Z.div_pos; lia).
    assert (H2 : 0 ≤ shr_m (SpecFloat.iter_pos shr_1 p (shr_1 r)))
      by (rewrite IH by done; apply Z.div_pos; lia).
    rewrite IH, IH, shr_1_m by done.
    rewrite !Z.div_div by lia. by rewrite pow2_xI.
  - assert (H2 : 0 ≤ shr_m (SpecFloat.iter_pos shr_1 p r))
      by (rewrite IH by done; apply Z.div_pos; lia).
    rewrite IH, IH by done.
    rewrite !Z.div_div by lia. by rewrite pow2_xO.
  - rewrite shr_1_m by done. done.
Qed.

Lemma fexp64_eq e : fexp prec emax e = Z.max (e - 53) (-1074).
Proof. done. Qed.

(** The exponent and the mantissa after the shift of [shr_fexp]. *)
Lemma shr_fexp_bounds m e l :
  0 ≤ m →
  let '(mrs, e') := shr_fexp prec emax m e l in
  0 ≤ shr_m mrs
  ∧ e' = Z.max e (fexp prec emax (Zdigits2 m + e))
  ∧ Zdigits2 (shr_m mrs) + e' ≤ Z.max (Zdigits2 m + e) e'.
Proof.
  intros Hm. unfold shr_fexp, shr.
  assert (Hrec : shr_m (shr_record_of_loc m l) = m) by (by destruct l as [|[]]).
  destruct (fexp prec emax (Zdigits2 m + e) - e) as [|n|n] eqn:En.
  - rewrite Hrec. split_and!; lia.
  - rewrite iter_shr_1_m, Hrec by (rewrite Hrec; done).
    assert (0 ≤ m / 2 ^ Z.pos n) by (apply Z.div_pos; lia).
    split_and!; [done|lia|].
    pose proof (Zdigits2_nonneg m) as Hd.
    pose proof (Zdigits2_gt m Hm) as Hlt.
    destruct (Z.le_gt_cases (Z.pos n) (Zdigits2 m)) as [Hle|Hgt].
    + assert (Zdigits2 (m / 2 ^ Z.pos n) ≤ Zdigits2 m - Z.pos n); [|lia].
      apply Zdigits2_le; [done|lia|].
      apply Z.div_lt_upper_bound; [lia|].
      rewrite <- Z.pow_add_r by lia.
      replace (Z.pos n + (Zdigits2 m - Z.pos n)) with (Zdigits2 m) by lia. done.
    + assert (m / 2 ^ Z.pos n = 0) as ->; [|simpl; lia].
      apply Z.div_small. split; [done|].
      eapply Z.lt_le_trans; [done|]. apply Z.pow_le_mono_r; lia.
  - rewrite Hrec. split_and!; lia.
Qed.

Lemma round_nearest_even_bounds m l :
  0 ≤ m → 0 ≤ round_nearest_even m l
          ∧ Zdigits2 (round_nearest_even m l) ≤ Zdigits2 m + 1.
Proof.
  intros Hm.
  assert (H1 : Zdigits2 (m + 1) ≤ Zdigits2 m + 1).
  { pose proof (Zdigits2_nonneg m). pose proof (Zdigits2_gt m Hm).
    apply Zdigits2_le; [lia..|]. rewrite Z.pow_add_r by lia. lia. }
  unfold round_nearest_even. destruct l as [|[]]; try destruct (Z.even m); split; lia.
Qed.

(** Rounding a number of at most 1023 binary digits stays in range. *)
Lemma binary_round_aux_in_range sx mx ex lx :
  0 ≤ mx → ex ≤ 971 → Zdigits2 mx + ex ≤ 1023 →
  ∀ s, binary_round_aux prec emax sx mx ex lx ≠ S754_infinity s.
Proof.
  intros Hm He Hd s. unfold binary_round_aux.
  pose proof (shr_fexp_bounds mx ex lx Hm) as H1.
  destruct (shr_fexp prec emax mx ex lx) as [mrs' e'].
  destruct H1 as (Hm' & He' & Hd').
  rewrite fexp64_eq in He'.
  destruct (round_nearest_even_bounds (shr_m mrs') (loc_of_shr_record mrs') Hm')
    as [Hr Hrd].
  pose proof (shr_fexp_bounds _ e' loc_Exact Hr) as H2.
  destruct (shr_fexp prec emax _ e' loc_Exact) as [mrs'' e''].
  destruct H2 as (Hm'' & He'' & Hd'').
  rewrite fexp64_eq in He''.
  destruct (shr_m mrs''); [done| |done].
  assert (e'' ≤ 971) as Hle by lia.
  apply Z.leb_le in Hle. change (emax - prec) with 971. by rewrite Hle.
Qed.

Lemma SFdiv_core_bounds (m1 m2 : positive) :
  let '(q, e', _) := SFdiv_core_binary prec emax (Z.pos m1) 0 (Z.pos m2) 0 in
  0 ≤ q ∧ e' ≤ 0 ∧ Zdigits2 q + e' ≤ Zdigits2 (Z.pos m1).
Proof.
  unfold SFdiv_core_binary.
  set (e' := Z.min _ _). set (s := 0 - 0 - e').
  assert (He : e' ≤ 0) by (subst e'; lia).
  set (m' := match s with Z.pos _ => _ | _ => _ end).
  assert (Hm' : m' = Z.pos m1 * 2 ^ s).
  { subst m'. destruct s as [|p|p] eqn:Es; [lia| |lia].
    by rewrite Z.shiftl_mul_pow2. }
  pose proof (Z_div_mod m' (Z.pos m2) ltac:(lia)) as Hdm.
  destruct (Z.div_eucl m' (Z.pos m2)) as [q r]. destruct Hdm as [Hq Hr].
  assert (H2s : 0 < 2 ^ s) by (apply Z.pow_pos_nonneg; lia).
  assert (Hq0 : 0 ≤ q) by nia.
  split_and!; [done..|].
  pose proof (Zdigits2_nonneg (Z.pos m1)) as Hd.
  pose proof (Zdigits2_gt (Z.pos m1) ltac:(lia)) as Hlt.
  assert (Zdigits2 q ≤ Zdigits2 (Z.pos m1) + s); [|lia].
  apply Zdigits2_le; [done|lia|].
  rewrite Z.pow_add_r by lia. nia.
Qed.

Lemma int_truediv_total a b :
  b ≠ 0 → Z.abs a < 2 ^ 1023 → ∃ q, int_truediv a b = inr q.
Proof.
  intros Hb Ha. unfold int_truediv.
  rewrite (proj2 (Z.eqb_neq _ _) Hb).
  assert (Hfin : ∀ s, SFdiv prec emax (exact_of_int a) (exact_of_int b) ≠ S754_infinity s).
  { destruct a as [|ma|ma], b as [|mb|mb]; try done.
    all: unfold exact_of_int, SFdiv.
    all: pose proof (SFdiv_core_bounds ma mb) as Hc.
    all: destruct (SFdiv_core_binary _ _ _ _ _ _) as [[q e'] l].
    all: destruct Hc as (Hq & He & Hd).
    all: assert (Zdigits2 (Z.pos ma) ≤ 1023) by (apply Zdigits2_le; lia).
    all: apply binary_round_aux_in_range; lia. }
  destruct (SFdiv _ _ _ _) as [| s | |]; eauto. by destruct (Hfin s).
Qed.

(** A zero dividend gives a zero, signed like the divisor. *)
Lemma int_truediv_zero b :
  b ≠ 0 → int_truediv 0 b = inr (S754_zero (b <? 0)).
Proof.
  intros Hb. unfold int_truediv. rewrite (proj2 (Z.eqb_neq _ _) Hb).
  by destruct b.
Qed.

Lemma float_mul_zero_100 s :
  float_mul (S754_zero s) (float_of_int 100) = S754_zero s.
Proof. by destruct s. Qed.

End FloatFacts.

(* ===================================================================== *)
(** * The trend comparator: new entrants and rank changes *)
(* ===================================================================== *)

Module Comparator.
Import Py Bot Spec PyFacts DictFacts LoopFacts FloatFacts.

Local Open Scope m_scope.

Lemma print_new_projects_run (cd : gmap string entry) (l : list loc) w :
  (∀ r, r ∈ l → full_name (store w r) ∈ dom cd) →
  for_each l (print_new_project cd) w
  = (inr tt, {| store := store w;
                stdout := stdout w ++ omap (new_project_line (store w) cd) l |}).
Proof.
  revert w. induction l as [|r l IH]; intros w Hcd.
  - simpl. unfold ret. rewrite app_nil_r. by destruct w.
  - assert (Hr : full_name (store w r) ∈ dom cd)
      by apply Hcd, list_elem_of_here.
    apply elem_of_dom in Hr as [ce Hce].
    cbn [for_each omap list_omap]. unfold new_project_line at 1.
    unfold bind at 1. unfold print_new_project at 1.
    unfold bind, getitem, index_getitem, print. rewrite Hce.
    unfold ret. cbv beta iota. unfold bind in IH. rewrite IH.
    + cbn [store stdout]. by rewrite <- app_assoc.
    + intros r' Hr'. cbn [store]. by apply Hcd, list_elem_of_further.
Qed.




Lemma rank_change_of_Some h pd cd r x :
  rank_change_of h pd cd r = Some x →
  rc_repo x = r
  ∧ rank <$> pd !! full_name (h r) = Some (rc_prev_rank x)
  ∧ rank <$> cd !! full_name (h r) = Some (rc_curr_rank x)
  ∧ rc_change x = rc_prev_rank x - rc_curr_rank x
  ∧ rc_prev_rank x ≠ rc_curr_rank x.
Proof.
  unfold rank_change_of.
  destruct (pd !! _) as [pe|]; [|done]. destruct (cd !! _) as [ce|]; [|done].
  case_decide; [done|]. by intros [= <-].
Qed.




(** ** The language loop *)



Lemma language_loop_run pa ca (L : list string) w w' :
  for_each L (language_change pa ca) w = (inr tt, w') →
  store w' = store w
  ∧ ∃ lines,
      stdout w' = stdout w ++ lines
      ∧ lang_line_data <$> lines
        = (λ lang, Some (lang, dict_get (language_stats pa) lang 0,
                         dict_get (language_stats ca) lang 0,
                         dict_get (language_stats ca) lang 0
                         - dict_get (language_stats pa) lang 0))
          <$> filter (λ lang, dict_get (language_stats pa) lang 0
                              ≠ dict_get (language_stats ca) lang 0) L.
Proof.
  revert w. induction L as [|lang L IH]; intros w.
  - intros [= <-]. split; [done|]. exists []. by rewrite app_nil_r.
  - cbn [for_each]. intros H.
    apply bind_inv in H as ([] & w1 & H1 & H2).
    apply IH in H2 as (Hst & lines & Hout & Hdata).
    rewrite filter_cons. unfold language_change in H1.
    destruct (decide (_ ≠ _)) as [Hne|Heq].
    + rewrite (proj2 (Z.eqb_neq _ _) Hne) in H1. cbn [negb] in H1.
      apply bind_inv in H1 as (q & w0 & Hq & Hp).
      assert (w0 = w) as ->.
      { destruct (negb _) in Hq.
        - apply bind_inv in Hq as (? & ? & Hl & Hr).
          unfold lift in Hl. unfold ret in Hr. congruence.
        - unfold ret in Hq. congruence. }
      unfold print in Hp. injection Hp as <-.
      cbn [store stdout] in *. split; [done|].
      eexists (_ :: lines). rewrite Hout, <- app_assoc. split; [done|].
      csimpl. by rewrite Hdata.
    + assert (Heq' : dict_get (language_stats pa) lang 0
                     = dict_get (language_stats ca) lang 0)
        by (destruct (decide (dict_get (language_stats pa) lang 0
                              = dict_get (language_stats ca) lang 0)); tauto).
      rewrite Heq', Z.eqb_refl in H1. cbn [negb] in H1.
      unfold ret in H1. injection H1 as <-. eauto.
Qed.

(** The percentage of a change within the range of the floats. *)
Lemma pct_total (prev change : Z) w :
  Z.abs change < 2 ^ 1023 →
  ∃ q, (if negb (prev =? 0)
        then let* q := lift (int_truediv change prev) in
             ret (float_mul q (float_of_int 100))
        else ret float_inf) w = (inr q, w).
Proof.
  intros Hb. destruct (Z.eqb_spec prev 0) as [->|Hne]; cbn [negb].
  - by eexists.
  - destruct (int_truediv_total change prev Hne Hb) as [q Hq].
    unfold bind, lift, ret. rewrite Hq. by eexists.
Qed.

Lemma language_loop_total pa ca (L : list string) w :
  (∀ lang, Z.abs (dict_get (language_stats ca) lang 0
                  - dict_get (language_stats pa) lang 0) < 2 ^ 1023) →
  ∃ w', for_each L (language_change pa ca) w = (inr tt, w').
Proof.
  intros Hb. revert w. induction L as [|lang L IH]; intros w.
  - by eexists.
  - cbn [for_each]. unfold language_change at 1.
    destruct (negb (_ =? _)).
    + destruct (pct_total (dict_get (language_stats pa) lang 0) _ w (Hb lang))
        as [q Hq].
      unfold bind at 1 2. rewrite Hq. unfold print at 1.
      apply IH.
    + unfold bind at 1, ret at 1. apply IH.
Qed.


(** ** A snapshot against itself *)

Lemma format_change_same (p : Z) (label : string) (w : world) :
  format_change p p label w
  = (inr tt, {| store := store w;
                stdout := stdout w ++ [Change label p p 0 (zero_pct_str p)] |}).
Proof.
  unfold format_change, zero_pct_str. rewrite Z.sub_diag.
  destruct (Z.eqb_spec p 0) as [->|Hne]; cbn [negb]; [done|].
  unfold bind, lift, ret, print.
  rewrite int_truediv_zero, float_mul_zero_100 by done.
  by destruct (p <? 0).
Qed.

Lemma language_changes_same (a : analysis) (w : world) :
  language_changes a a w = (inr tt, w).
Proof.
  unfold language_changes.
  induction (sorted_strings (all_langs a a)) as [|lang L IH]; [done|].
  cbn [for_each]. unfold bind, language_change.
  rewrite Z.eqb_refl. cbn [negb]. unfold ret. exact IH.
Qed.

Lemma rank_change_of_same h (d : gmap string entry) r :
  rank_change_of h d d r = None.
Proof.
  unfold rank_change_of. destruct (d !! _); [|done]. by rewrite decide_True.
Qed.

(** C5.  Comparing a snapshot and a summary against themselves prints the
    two totals with a zero delta, no language line, no new entrant and no
    rank change, and leaves every record as it was. *)
Theorem self_comparison (a : analysis) (repos : list loc) (w : world) :
  compare_trends a a repos repos w
  = (inr tt,
     {| store := store w;
        stdout :=
          stdout w
          ++ [Banner;
              Change "⭐ 总星标数" (total_stars a) (total_stars a) 0
                     (zero_pct_str (total_stars a));
              Change "🍴 总Fork数" (total_forks a) (total_forks a) 0
                     (zero_pct_str (total_forks a));
              LangHeading;
              Rule] |}).
Proof.
  unfold compare_trends.
  unfold bind at 1. unfold print at 1.
  rewrite (bind_ok _ _ _ _ _ (format_change_same _ _ _)).
  rewrite (bind_ok _ _ _ _ _ (format_change_same _ _ _)).
  unfold bind at 1. unfold print at 1.
  rewrite (bind_ok _ _ _ _ _ (language_changes_same _ _)).
  rewrite (bind_ok _ _ _ _ _ (index_loop_run _ _ _ _)).
  rewrite (bind_ok _ _ _ _ _ (index_loop_run _ _ _ _)).
  rewrite (bind_ok _ _ _ _ _ (new_projects_run _ _ _)).
  cbn [store stdout].
  assert (Hnew : filter (λ r, full_name (store w r)
                              ∉ dom (index_from (store w) repos 1 ∅)) repos
                 = []).
  { apply elem_of_nil_inv. intros r Hr.
    apply list_elem_of_filter in Hr as [Hr Hin]. apply Hr.
    apply (index_of_dom (store w) repos), list_elem_of_fmap. eauto. }
  rewrite Hnew. unfold bind at 1. unfold ret at 1.
  erewrite bind_ok; last first.
  { apply rank_loop_idle.
    - intros r Hr. cbn [store].
      apply (index_of_dom (store w) repos), list_elem_of_fmap. eauto.
    - intros r Hr. apply rank_change_of_same. }
  unfold bind, ret, print. cbn [store stdout].
  by rewrite <- !app_assoc.
Qed.

(** ** What the comparator writes *)

Lemma keeps_store_print_new_project cd r :
  keeps_store (print_new_project cd r).
Proof.
  unfold print_new_project.
  apply keeps_store_bind; [apply keeps_store_getitem|]. intros key.
  apply keeps_store_bind; [apply keeps_store_index_getitem|]. intros ce.
  apply keeps_store_bind; [apply keeps_store_getitem|]. intros nm.
  apply keeps_store_bind; [apply keeps_store_getitem|]. intros n.
  apply keeps_store_print.
Qed.

Lemma stamped_fields h pd cd repos l :
  full_name (stamped h pd cd repos l) = full_name (h l)
  ∧ name (stamped h pd cd repos l) = name (h l)
  ∧ stargazers_count (stamped h pd cd repos l) = stargazers_count (h l)
  ∧ forks_count (stamped h pd cd repos l) = forks_count (h l)
  ∧ language (stamped h pd cd repos l) = language (h l).
Proof.
  unfold stamped. destruct (pd !! _); [|done]. by case_decide.
Qed.

(** The store when [compare_trends] has returned. *)
Lemma compare_trends_store pa ca previous_repos current_repos w w' :
  compare_trends pa ca previous_repos current_repos w = (inr tt, w') →
  ∀ l, store w' l
       = stamped (store w) (index_of (store w) previous_repos)
           (index_of (store w) current_repos) current_repos l.
Proof.
  unfold compare_trends. intros H.
  apply bind_inv in H as ([] & w1 & H1 & H).
  apply keeps_store_print in H1.
  apply bind_inv in H as ([] & w2 & H2 & H).
  apply keeps_store_format_change in H2.
  apply bind_inv in H as ([] & w3 & H3 & H).
  apply keeps_store_format_change in H3.
  apply bind_inv in H as ([] & w4 & H4 & H).
  apply keeps_store_print in H4.
  apply bind_inv in H as ([] & w5 & H5 & H).
  apply keeps_store_for_each in H5;
    [|intros; apply keeps_store_language_change].
  assert (E5 : store w5 = store w) by congruence.
  apply bind_inv in H as (pd & w6 & H6 & H).
  rewrite index_loop_run in H6. injection H6 as <- <-.
  apply bind_inv in H as (cd & w7 & H7 & H).
  rewrite index_loop_run in H7. injection H7 as <- <-.
  apply bind_inv in H as (new_projects & w8 & H8 & H).
  rewrite new_projects_run in H8. injection H8 as <- <-.
  apply bind_inv in H as ([] & w9 & H9 & H).
  assert (E9 : store w9 = store w5).
  { destruct (filter _ current_repos) in H9.
    - by apply keeps_store_ret in H9.
    - revert H9. apply keeps_store_bind; [apply keeps_store_print|].
      intros _. apply keeps_store_for_each.
      intros; apply keeps_store_print_new_project. }
  apply bind_inv in H as (rank_changes & w10 & H10 & H).
  destruct (rank_loop_run (index_from (store w5) previous_repos 1 ∅)
              (index_from (store w5) current_repos 1 ∅)
              current_repos [] w9) as (w10' & Hrun & _ & Hst).
  { intros r Hr. rewrite E9.
    apply (index_of_dom (store w5) current_repos), list_elem_of_fmap. eauto. }
  rewrite Hrun in H10. injection H10 as <- <-.
  apply bind_inv in H as ([] & w11 & H11 & H).
  assert (E11 : store w11 = store w10').
  { destruct (omap _ current_repos) in H11.
    - by apply keeps_store_ret in H11.
    - revert H11. apply keeps_store_bind; [apply keeps_store_print|].
      intros _. apply keeps_store_for_each.
      intros; apply keeps_store_print_rank_change. }
  apply keeps_store_print in H.
  intros l. rewrite H, E11, Hst, E9, E5. done.
Qed.

(** The sample run: what the scenario of the specification prints, and the
    record of [b] in the current snapshot after it. *)
Lemma sample_run :
  ∃ w', compare_trends Sample.previous_analysis Sample.current_analysis
          Sample.previous_repos Sample.current_repos Sample.start
        = (inr tt, w')
      ∧ stdout w'
        = [Banner;
           Change "⭐ 总星标数" 150 140 (-10) "-6.67%";
           Change "🍴 总Fork数" 2 2 0 "+0.00%";
           LangHeading;
           LangChange "Go" 1 0 (-1) "-100.00%";
           LangChange "Rust" 0 1 1 "N/A";
           NewHeading 1;
           NewProject 2 "c" 60;
           RankHeading 1;
           RankChange "📈" "b" 2 1 1 "+60.00%";
           Rule]
      ∧ prev_stars (store w' 2%nat) = Some 50.
Proof. eexists. split_and!; [vm_compute; reflexivity|done..]. Qed.

(** C9, as the code has it.  When [compare_trends] has returned, the store
    is the one it started from with the previous star count written onto
    the current records that have a rank-change entry: every record keeps
    the fields it had, a record outside the current snapshot or without an
    entry is as it was, and a current record with an entry carries
    [prev_stars], the star count of its identifier in the previous
    index. *)
Theorem compare_trends_frame pa ca previous_repos current_repos w w' :
  compare_trends pa ca previous_repos current_repos w = (inr tt, w') →
  let h := store w in
  let prev_dict := index_of h previous_repos in
  let curr_dict := index_of h current_repos in
  (∀ l, store w' l = stamped h prev_dict curr_dict current_repos l)
  ∧ (∀ l, full_name (store w' l) = full_name (h l)
          ∧ name (store w' l) = name (h l)
          ∧ stargazers_count (store w' l) = stargazers_count (h l)
          ∧ forks_count (store w' l) = forks_count (h l)
          ∧ language (store w' l) = language (h l))
  ∧ (∀ l, l ∉ current_repos → store w' l = h l)
  ∧ (∀ l, rank_change_of h prev_dict curr_dict l = None → store w' l = h l)
  ∧ (∀ l pe, l ∈ current_repos →
       is_Some (rank_change_of h prev_dict curr_dict l) →
       prev_dict !! full_name (h l) = Some pe →
       store w' l = set_prev_stars (h l) (stars pe)).
Proof.
  intros H h pd cd.
  pose proof (compare_trends_store _ _ _ _ _ _ H) as Hst.
  fold h pd cd in Hst. split_and!.
  - done.
  - intros l. rewrite Hst. apply stamped_fields.
  - intros l Hl. rewrite Hst. unfold stamped.
    destruct (pd !! _); [|done]. rewrite decide_False; [done|tauto].
  - intros l Hl. rewrite Hst. unfold stamped.
    destruct (pd !! _); [|done]. rewrite decide_False; [done|].
    rewrite Hl. intros [_ [? ?]]. done.
  - intros l pe Hl Hrc Hpe. rewrite Hst. unfold stamped.
    rewrite Hpe. by rewrite decide_True.
Qed.

Lemma compare_trends_frame_witness :
  let run := compare_trends Sample.previous_analysis Sample.current_analysis
               Sample.previous_repos Sample.current_repos Sample.start in
  run.1 = inr tt
  ∧ ∀ l, store run.2 l
         = stamped Sample.objects
             (index_of Sample.objects Sample.previous_repos)
             (index_of Sample.objects Sample.current_repos)
             Sample.current_repos l.
Proof.
  split; [vm_compute; reflexivity|].
  apply (compare_trends_frame Sample.previous_analysis Sample.current_analysis
           Sample.previous_repos Sample.current_repos Sample.start).
  vm_compute; reflexivity.
Defined.

(** The claim C9 as the specification words it fails on the scenario of the
    specification: after the call the record of [b] in the current snapshot
    is not the record it was. *)
Lemma compare_trends_writes_current_record :
  ∃ w', compare_trends Sample.previous_analysis Sample.current_analysis
          Sample.previous_repos Sample.current_repos Sample.start
        = (inr tt, w')
      ∧ 2%nat ∈ Sample.current_repos
      ∧ store w' 2%nat ≠ store Sample.start 2%nat.
Proof.
  eexists. split_and!; [vm_compute; reflexivity| |].
  - apply list_elem_of_here.
  - vm_compute. congruence.
Qed.

(** ** Percentages *)


(** The hundredths are the nearest integer to a hundred times the value. *)
Lemma round_half_even_div_near (n d : Z) :
  0 < d → Z.abs (2 * (round_half_even_div n d * d - n)) ≤ d.
Proof.
  intros Hd. unfold round_half_even_div.
  pose proof (Z.div_mod n d ltac:(lia)) as Hdm.
  pose proof (Z.mod_pos_bound n d Hd) as Hm.
  destruct (Z.compare_spec (2 * (n mod d)) d) as [E|E|E];
    [destruct (Z.even _)|..]; nia.
Qed.




(** ** The comparator returns *)

Lemma index_from_stars h repos i (d : gmap string entry) k e :
  index_from h repos i d !! k = Some e →
  d !! k = Some e ∨ ∃ r, r ∈ repos ∧ stars e = stargazers_count (h r).
Proof.
  revert i d. induction repos as [|r repos IH]; intros i d; simpl; [auto|].
  intros [H|(r' & Hr' & Hs)]%IH.
  - destruct (decide (full_name (h r) = k)) as [<-|Hne].
    + rewrite lookup_insert_eq in H. injection H as <-.
      right. exists r. split; [apply list_elem_of_here|done].
    + rewrite lookup_insert_ne in H by done. auto.
  - right. exists r'. split; [by apply list_elem_of_further|done].
Qed.

Lemma format_change_returns prev curr label w :
  Z.abs (curr - prev) < 2 ^ 1023 →
  ∃ w', format_change prev curr label w = (inr tt, w').
Proof.
  intros Hb. unfold format_change.
  destruct (pct_total prev (curr - prev) w Hb) as [q Hq].
  unfold bind at 1. rewrite Hq. by eexists.
Qed.

Lemma print_rank_changes_return (L : list rank_change) w :
  (∀ x, x ∈ L →
     ∃ p, prev_stars (store w (rc_repo x)) = Some p
          ∧ Z.abs (stargazers_count (store w (rc_repo x)) - p) < 2 ^ 1023) →
  ∃ w', for_each L print_rank_change w = (inr tt, w').
Proof.
  revert w. induction L as [|x L IH]; intros w HL; [by eexists|].
  destruct (HL x (list_elem_of_here _ _)) as (p & Hp & Hb).
  destruct x as [[[repo pr] cr] ch]. unfold rc_repo in Hp, Hb. simpl in Hp, Hb.
  cbn [for_each].
  assert (Hx : ∃ w1, print_rank_change (repo, pr, cr, ch) w = (inr tt, w1)).
  { unfold print_rank_change.
    unfold bind at 1 2. unfold getitem at 1. unfold getitem_prev_stars at 1.
    rewrite Hp.
    destruct (pct_total p (stargazers_count (store w repo) - p) w Hb)
      as [q Hq].
    unfold bind at 1. rewrite Hq.
    unfold bind, getitem, print. by eexists. }
  destruct Hx as [w1 Hx]. rewrite (bind_ok _ _ _ _ _ Hx).
  apply IH. intros y Hy.
  rewrite (keeps_store_print_rank_change _ _ _ _ Hx).
  by apply HL, list_elem_of_further.
Qed.

(** X12.  [compare_trends] returns normally, with no exception from a
    lookup or a division, whenever the numbers it divides are within the
    range of the floats. *)
Lemma compare_trends_returns pa ca previous_repos current_repos w :
  Z.abs (total_stars ca - total_stars pa) < 2 ^ 1023 →
  Z.abs (total_forks ca - total_forks pa) < 2 ^ 1023 →
  (∀ lang, Z.abs (dict_get (language_stats ca) lang 0
                  - dict_get (language_stats pa) lang 0) < 2 ^ 1023) →
  (∀ l, Z.abs (stargazers_count (store w l)) < 2 ^ 1022) →
  ∃ w', compare_trends pa ca previous_repos current_repos w = (inr tt, w').
Proof.
  intros Hs Hf Hl Hn. unfold compare_trends.
  unfold bind at 1. unfold print at 1.
  set (w1 := {| store := store w; stdout := stdout w ++ [Banner] |}).
  destruct (format_change_returns (total_stars pa) (total_stars ca)
              "⭐ 总星标数" w1 Hs) as [w2 H2].
  rewrite (bind_ok _ _ _ _ _ H2).
  destruct (format_change_returns (total_forks pa) (total_forks ca)
              "🍴 总Fork数" w2 Hf) as [w3 H3].
  rewrite (bind_ok _ _ _ _ _ H3).
  unfold bind at 1. unfold print at 1.
  set (w4 := {| store := store w3; stdout := stdout w3 ++ [LangHeading] |}).
  destruct (language_loop_total pa ca
              (sorted_strings (all_langs pa ca)) w4 Hl) as [w5 H5].
  fold (language_changes pa ca) in H5.
  rewrite (bind_ok _ _ _ _ _ H5).
  assert (E5 : store w5 = store w).
  { apply keeps_store_for_each in H5;
      [|intros; apply keeps_store_language_change].
    apply keeps_store_format_change in H2, H3.
    rewrite H5. subst w4. cbn [store]. rewrite H3, H2. done. }
  rewrite (bind_ok _ _ _ _ _ (index_loop_run _ _ _ _)).
  rewrite (bind_ok _ _ _ _ _ (index_loop_run _ _ _ _)).
  rewrite (bind_ok _ _ _ _ _ (new_projects_run _ _ _)).
  rewrite E5. fold (index_of (store w) previous_repos).
  fold (index_of (store w) current_repos).
  set (pd := index_of (store w) previous_repos).
  set (cd := index_of (store w) current_repos).
  set (np := filter _ current_repos).
  assert (Hcd : ∀ r, r ∈ current_repos → full_name (store w r) ∈ dom cd).
  { intros r Hr. apply index_of_dom, list_elem_of_fmap. eauto. }
  assert (H9 : ∃ w9,
    (match np with
     | [] => ret tt
     | _ => print (NewHeading (length np)) ;;;
            for_each np (print_new_project cd)
     end) w5 = (inr tt, w9) ∧ store w9 = store w).
  { destruct np as [|r np'] eqn:Enp; [by exists w5|].
    unfold bind. unfold print at 1.
    rewrite print_new_projects_run.
    - eexists. split; [done|]. by cbn [store].
    - intros r' Hr'. cbn [store]. rewrite E5. apply Hcd.
      rewrite <- Enp in Hr'. subst np.
      by apply list_elem_of_filter in Hr' as [_ Hr']. }
  destruct H9 as (w9 & H9 & E9). rewrite (bind_ok _ _ _ _ _ H9).
  destruct (rank_loop_run pd cd current_repos [] w9) as (wr & Hr & _ & Hst).
  { intros r Hr. rewrite E9. by apply Hcd. }
  rewrite (bind_ok _ _ _ _ _ Hr). rewrite app_nil_l.
  rewrite E9 in Hst |- *.
  set (rcs := omap (rank_change_of (store w) pd cd) current_repos).
  assert (H11 : ∃ w11,
    (match rcs with
     | [] => ret tt
     | _ => print (RankHeading (length rcs)) ;;;
            for_each (sorted_rank_changes rcs) print_rank_change
     end) wr = (inr tt, w11)).
  { destruct rcs as [|x rcs'] eqn:Ercs; [by eexists|].
    unfold bind. unfold print at 1.
    apply print_rank_changes_return. intros y Hy. cbn [store].
    assert (Hy' : y ∈ rcs).
    { rewrite Ercs. unfold sorted_rank_changes in Hy.
      by rewrite sorted_perm in Hy. }
    apply list_elem_of_omap in Hy' as (r & Hrin & Hrc).
    pose proof (rank_change_of_Some _ _ _ _ _ Hrc) as (-> & Hpr & _).
    destruct (pd !! full_name (store w r)) as [pe|] eqn:Hpe; [|done].
    rewrite Hst. unfold stamped. rewrite Hpe.
    rewrite decide_True by (split; [done|by eexists]).
    exists (stars pe). split; [done|]. cbn [stargazers_count set_prev_stars].
    apply index_from_stars in Hpe as [Hpe|(r' & _ & ->)]; [done|].
    pose proof (Hn r). pose proof (Hn r').
    change (2 ^ 1023) with (2 * 2 ^ 1022). lia. }
  destruct H11 as (w11 & H11). rewrite (bind_ok _ _ _ _ _ H11).
  by eexists.
Qed.

(** ** What the comparator prints *)

Lemma format_change_inv prev curr label w w' :
  format_change prev curr label w = (inr tt, w') →
  ∃ pct_str,
    w' = {| store := store w;
            stdout := stdout w ++ [Change label prev curr (curr - prev) pct_str] |}.
Proof.
  unfold format_change. intros H.
  apply bind_inv in H as (q & w0 & Hq & Hp).
  assert (w0 = w) as ->.
  { destruct (negb _) in Hq.
    - apply bind_inv in Hq as (? & ? & Hl & Hr).
      unfold lift in Hl. unfold ret in Hr. congruence.
    - unfold ret in Hq. congruence. }
  unfold print in Hp. injection Hp as <-. by eexists.
Qed.

Lemma print_rank_changes_lines (L : list rank_change) w w' :
  for_each L print_rank_change w = (inr tt, w') →
  ∃ lines,
    stdout w' = stdout w ++ lines
    ∧ rank_line_data <$> lines
      = (λ x, Some (if 0 <? rc_change x then "📈" else "📉",
                    name (store w (rc_repo x)),
                    rc_prev_rank x, rc_curr_rank x, rc_change x)) <$> L.
Proof.
  revert w. induction L as [|x L IH]; intros w.
  - intros [= <-]. exists []. by rewrite app_nil_r.
  - cbn [for_each]. intros H.
    apply bind_inv in H as ([] & w1 & H1 & H2).
    pose proof (keeps_store_print_rank_change _ _ _ _ H1) as E1.
    apply IH in H2 as (lines & Hout & Hdata). rewrite E1 in Hdata.
    destruct x as [[[repo pr] cr] ch]. unfold print_rank_change in H1.
    apply bind_inv in H1 as (n & wa & Ha & H1).
    unfold getitem in Ha. injection Ha as <- <-.
    apply bind_inv in H1 as (p & wb & Hb & H1).
    assert (wb = w) as ->.
    { unfold getitem_prev_stars in Hb.
      destruct (prev_stars _); congruence. }
    apply bind_inv in H1 as (q & wc & Hc & H1).
    assert (wc = w) as ->.
    { destruct (negb _) in Hc.
      - apply bind_inv in Hc as (? & ? & Hl & Hr).
        unfold lift in Hl. unfold ret in Hr. congruence.
      - unfold ret in Hc. congruence. }
    apply bind_inv in H1 as (nm & wd & Hd & H1).
    unfold getitem in Hd. injection Hd as <- <-.
    unfold print in H1. injection H1 as <-.
    cbn [store stdout] in *.
    eexists (_ :: lines). rewrite Hout, <- app_assoc. split; [done|].
    csimpl. by rewrite Hdata.
Qed.

(** X13.  The output of a call that returns: the banner and the two
    totals, the lines of the languages whose count changed, the new
    entrants under their heading, the rank changes under theirs by
    descending absolute delta, and the closing rule. *)
Lemma compare_trends_output pa ca previous_repos current_repos w w' :
  compare_trends pa ca previous_repos current_repos w = (inr tt, w') →
  let h := store w in
  let prev_dict := index_of h previous_repos in
  let curr_dict := index_of h current_repos in
  let new_projects :=
    filter (λ r, full_name (h r) ∉ identifiers h previous_repos)
           current_repos in
  let rank_changes :=
    omap (rank_change_of h prev_dict curr_dict) current_repos in
  ∃ stars_pct forks_pct lang_lines rank_lines,
    stdout w'
    = stdout w
      ++ [Banner;
          Change "⭐ 总星标数" (total_stars pa) (total_stars ca)
                 (total_stars ca - total_stars pa) stars_pct;
          Change "🍴 总Fork数" (total_forks pa) (total_forks ca)
                 (total_forks ca - total_forks pa) forks_pct;
          LangHeading]
      ++ lang_lines
      ++ match new_projects with
         | [] => []
         | _ => NewHeading (length new_projects)
                :: omap (new_project_line h curr_dict) new_projects
         end
      ++ match rank_changes with
         | [] => []
         | _ => RankHeading (length rank_changes) :: rank_lines
         end
      ++ [Rule]
    ∧ lang_line_data <$> lang_lines
      = (λ lang, Some (lang, dict_get (language_stats pa) lang 0,
                       dict_get (language_stats ca) lang 0,
                       dict_get (language_stats ca) lang 0
                       - dict_get (language_stats pa) lang 0))
        <$> changed_langs pa ca
    ∧ rank_line_data <$> rank_lines
      = (λ x, Some (if 0 <? rc_change x then "📈" else "📉",
                    name (h (rc_repo x)),
                    rc_prev_rank x, rc_curr_rank x, rc_change x))
        <$> sorted_rank_changes rank_changes.
Proof.
  intros H h pd cd np rcs. unfold compare_trends in H.
  apply bind_inv in H as ([] & w1 & H1 & H).
  unfold print in H1. injection H1 as <-.
  apply bind_inv in H as ([] & w2 & H2 & H).
  apply format_change_inv in H2 as [stars_pct ->].
  apply bind_inv in H as ([] & w3 & H3 & H).
  apply format_change_inv in H3 as [forks_pct ->].
  apply bind_inv in H as ([] & w4 & H4 & H).
  unfold print in H4. injection H4 as <-. cbn [store stdout] in H.
  apply bind_inv in H as ([] & w5 & H5 & H).
  apply language_loop_run in H5 as (E5 & lang_lines & O5 & D5).
  cbn [store stdout] in E5, O5. fold (changed_langs pa ca) in D5.
  apply bind_inv in H as (pd' & w6 & H6 & H).
  rewrite index_loop_run in H6. injection H6 as <- <-.
  apply bind_inv in H as (cd' & w7 & H7 & H).
  rewrite index_loop_run in H7. injection H7 as <- <-.
  apply bind_inv in H as (np' & w8 & H8 & H).
  rewrite new_projects_run in H8. injection H8 as <- <-.
  rewrite E5 in H. fold h in H. fold (index_of h previous_repos) in H.
  fold (index_of h current_repos) in H. fold pd cd in H.
  assert (Enp : filter (λ r, full_name (h r) ∉ dom pd) current_repos = np).
  { apply list_filter_iff. intros r. unfold pd. by rewrite index_of_dom. }
  rewrite Enp in H.
  assert (Hcd : ∀ r, r ∈ current_repos → full_name (h r) ∈ dom cd).
  { intros r Hr. apply index_of_dom, list_elem_of_fmap. eauto. }
  apply bind_inv in H as ([] & w9 & H9 & H).
  assert (E9 : store w9 = h
               ∧ stdout w9
                 = stdout w5
                   ++ match np with
                      | [] => []
                      | _ => NewHeading (length np)
                             :: omap (new_project_line h cd) np
                      end).
  { destruct np as [|r np'] eqn:Enp'.
    - unfold ret in H9. injection H9 as <-. by rewrite app_nil_r.
    - unfold bind in H9. unfold print at 1 in H9.
      rewrite print_new_projects_run in H9.
      + injection H9 as <-. cbn [store stdout]. rewrite E5.
        split; [done|]. by rewrite <- app_assoc.
      + intros r' Hr'. cbn [store]. rewrite E5. apply Hcd.
        rewrite <- Enp' in Hr'. unfold np in Hr'.
        by apply list_elem_of_filter in Hr' as [_ Hr']. }
  destruct E9 as [E9 O9].
  apply bind_inv in H as (rcs' & w10 & H10 & H).
  destruct (rank_loop_run pd cd current_repos [] w9) as (wr & Hr & Or & Hst).
  { intros r Hr. rewrite E9. by apply Hcd. }
  rewrite Hr in H10. injection H10 as <- <-.
  rewrite ?app_nil_l in H. rewrite E9 in H, Hst. fold pd cd rcs in H.
  apply bind_inv in H as ([] & w11 & H11 & H).
  unfold print in H. injection H as <-. cbn [stdout].
  assert (E11 : ∃ rank_lines,
    stdout w11
    = stdout wr ++ match rcs with
                   | [] => []
                   | _ => RankHeading (length rcs) :: rank_lines
                   end
    ∧ rank_line_data <$> rank_lines
      = (λ x, Some (if 0 <? rc_change x then "📈" else "📉",
                    name (h (rc_repo x)),
                    rc_prev_rank x, rc_curr_rank x, rc_change x))
        <$> sorted_rank_changes rcs).
  { destruct rcs as [|x rcs'] eqn:Ercs.
    - unfold ret in H11. injection H11 as <-. exists [].
      by rewrite app_nil_r.
    - unfold bind in H11. unfold print at 1 in H11.
      apply print_rank_changes_lines in H11 as (lines & O11 & D11).
      cbn [store stdout] in O11, D11. exists lines. split.
      + by rewrite O11, <- app_assoc.
      + rewrite D11. apply list_fmap_ext. intros _ y _.
        rewrite Hst. by destruct (stamped_fields h pd cd current_repos (rc_repo y))
          as (_ & -> & _). }
  destruct E11 as (rank_lines & O11 & D11).
  exists stars_pct, forks_pct, lang_lines, rank_lines.
  split_and!; [|done..].
  rewrite O11, Or, O9, O5. by rewrite <- !app_assoc.
Qed.

(** ** The scenario of the specification *)




Lemma self_comparison_witness :
  compare_trends Sample.current_analysis Sample.current_analysis
    Sample.current_repos Sample.current_repos Sample.start
  = (inr tt,
     {| store := Sample.objects;
        stdout := [Banner;
                   Change "⭐ 总星标数" 140 140 0 "+0.00%";
                   Change "🍴 总Fork数" 2 2 0 "+0.00%";
                   LangHeading; Rule] |}).
Proof.
  exact (self_comparison Sample.current_analysis Sample.current_repos
           Sample.start).
Defined.

End Comparator.

(* ===================================================================== *)
(** * The closest-snapshot lookup *)
(* ===================================================================== *)

Module SnapshotStore.
Import Py Bot Spec.

Section LookupFacts.
Variable strptime : string → option Z.
Variable target_date : Z.

Local Abbreviation capture_day := (Spec.capture_day strptime).
Local Abbreviation distance := (Spec.distance target_date).
Local Abbreviation best := (Spec.best strptime target_date).

(** The difference the code computes, from a [datetime] with a time of
    day and a date at midnight, is the distance in calendar days. *)
Lemma date_diff_calendar (d : Z) :
  date_diff_of target_date d = distance d.
Proof.
  unfold date_diff_of, Spec.distance, timedelta_days, day_of. f_equal.
  replace (target_date - d * us_per_day)
    with (target_date + (- d) * us_per_day) by lia.
  rewrite Z.div_add by done. lia.
Qed.

Lemma best_skip seen file c m :
  capture_day file = None → best seen c m → best (seen ++ [file]) c m.
Proof.
  intros Hnone. unfold Spec.best. destruct c as [f|], m as [|v]; try done.
  - intros (i & d & Hi & Hd & Hv & Hmin). exists i, d.
    split_and!; [by apply lookup_app_l_Some|done..|].
    intros j f' d' Hj Hd'.
    apply lookup_app_Some in Hj as [Hj|[_ Hj]]; [by eapply Hmin|].
    apply list_lookup_singleton_Some in Hj as [_ <-]. congruence.
  - intros Hno f d Hf Hd.
    apply elem_of_app in Hf as [Hf|Hf%list_elem_of_singleton];
      [by eapply Hno|]. congruence.
Qed.

Lemma best_take seen file d (c : option string) m :
  capture_day file = Some d → lt_ext (distance d) m = true →
  best seen c m → best (seen ++ [file]) (Some file) (Fin (distance d)).
Proof.
  intros Hd Hlt Hbest. exists (length seen), d.
  split_and!; [|done..|].
  { rewrite lookup_app_r by done. by rewrite Nat.sub_diag. }
  intros j f' d' Hj Hd'.
  apply lookup_app_Some in Hj as [Hj|[Hlen Hj]].
  - unfold Spec.best in Hbest. destruct c as [f|], m as [|v]; try done.
    + destruct Hbest as (i & d0 & _ & _ & _ & Hmin).
      simpl in Hlt. apply Z.ltb_lt in Hlt.
      destruct (Hmin j f' d' Hj Hd'). lia.
    + exfalso. eapply Hbest; [|done]. by eapply list_elem_of_lookup_2.
  - apply list_lookup_singleton_Some in Hj as [Hj <-].
    assert (d' = d) as -> by congruence. lia.
Qed.

Lemma best_keep seen file d (c : option string) m :
  capture_day file = Some d → lt_ext (distance d) m = false →
  best seen c m → best (seen ++ [file]) c m.
Proof.
  intros Hd Hlt. unfold Spec.best. destruct c as [f|], m as [|v]; try done.
  intros (i & d0 & Hi & Hd0 & Hv & Hmin). exists i, d0.
  split_and!; [by apply lookup_app_l_Some|done..|].
  intros j f' d' Hj Hd'.
  apply lookup_app_Some in Hj as [Hj|[Hlen Hj]]; [by eapply Hmin|].
  apply list_lookup_singleton_Some in Hj as [Hj <-].
  assert (d' = d) as -> by congruence.
  simpl in Hlt. apply Z.ltb_ge in Hlt.
  apply lookup_lt_Some in Hi. lia.
Qed.

Lemma scan_best files seen c m :
  best seen c m →
  best (seen ++ files) (scan strptime target_date files c m).1
                       (scan strptime target_date files c m).2.
Proof.
  revert seen c m. induction files as [|file files IH]; intros seen c m Hb.
  - by rewrite app_nil_r.
  - rewrite (cons_middle file), app_assoc. cbn [scan].
    fold (capture_day file).
    destruct (capture_day file) as [d|] eqn:Hd.
    + rewrite date_diff_calendar.
      destruct (lt_ext (distance d) m) eqn:Hlt; apply IH.
      * by eapply best_take.
      * by eapply best_keep.
    + apply IH. by apply best_skip.
Qed.

(** C6.  The lookup returns the first of the candidates at the least
    distance in calendar days from the target, among the files whose name
    spells a date (the others are passed over), when that distance is at
    most 2; it returns nothing when no candidate is within 2 days, in
    particular when there is no candidate at all.  The difference it
    computes is the distance in calendar days whatever the time of day of
    the target. *)
Theorem find_comparison_file_spec (files : list string) :
  match find_comparison_file strptime target_date files with
  | Some f =>
      ∃ (i : nat) d,
        files !! i = Some f ∧ capture_day f = Some d ∧ distance d ≤ 2
        ∧ ∀ (j : nat) f' d',
            files !! j = Some f' → capture_day f' = Some d' →
            distance d ≤ distance d' ∧ ((j < i)%nat → distance d < distance d')
  | None =>
      ∀ f d, f ∈ files → capture_day f = Some d → 2 < distance d
  end
  ∧ ∀ d, date_diff_of target_date d = Z.abs (day_of target_date - d).
Proof.
  split; [|apply date_diff_calendar].
  unfold find_comparison_file. destruct files as [|file files].
  { intros f d Hf. by apply elem_of_nil in Hf. }
  pose proof (scan_best (file :: files) [] None Inf) as Hb.
  rewrite app_nil_l in Hb.
  destruct (scan strptime target_date (file :: files) None Inf) as [c m].
  cbn [fst snd] in Hb.
  assert (Hb' : best (file :: files) c m).
  { apply Hb. intros f d Hf. by apply elem_of_nil in Hf. }
  clear Hb. unfold Spec.best in Hb'. destruct c as [f|], m as [|v]; try done.
  - cbn [le_ext]. destruct (Z.leb_spec v 2) as [Hle|Hgt].
    + destruct Hb' as (i & d & Hi & Hd & <- & Hmin). by exists i, d.
    + destruct Hb' as (i & d & Hi & Hd & <- & Hmin).
      intros f' d' Hf' Hd'.
      apply list_elem_of_lookup in Hf' as [j Hj].
      destruct (Hmin j f' d' Hj Hd'). lia.
  - cbn [le_ext]. intros f d Hf Hd. by destruct (Hb' f d Hf Hd).
Qed.

(** C10.  When no file name spells a date, the lookup returns nothing:
    [min_diff] is still infinite after the loop and fails the test
    against the tolerance. *)
Theorem find_comparison_file_no_date (files : list string) :
  (∀ f, f ∈ files → capture_day f = None) →
  scan strptime target_date files None Inf = (None, Inf)
  ∧ find_comparison_file strptime target_date files = None.
Proof.
  intros Hnone.
  assert (Hscan : scan strptime target_date files None Inf = (None, Inf)).
  { induction files as [|file files IH]; [done|].
    cbn [scan]. fold (capture_day file).
    rewrite (Hnone file) by apply list_elem_of_here.
    apply IH. intros; by apply Hnone, list_elem_of_further. }
  split; [done|].
  unfold find_comparison_file. destruct files; [done|]. by rewrite Hscan.
Qed.
End LookupFacts.

(** The scenarios of the specification: candidates at 1, 4 and 9 days from
    the target, then candidates at 3 and 5 days. *)
Lemma lookup_scenarios :
  find_comparison_file iso_date Sample.target_date
    ["data/data_2024-04-22.json"; "data/data_2024-04-25.json";
     "data/data_2024-04-17.json"]
  = Some "data/data_2024-04-25.json"
  ∧ find_comparison_file iso_date Sample.target_date
      ["data/data_2024-04-23.json"; "data/data_2024-05-01.json"]
    = None
  ∧ find_comparison_file iso_date Sample.target_date Sample.files
    = Some "data/data_2024-04-25.json".
Proof. by vm_compute. Qed.

Lemma find_comparison_file_no_date_witness :
  find_comparison_file iso_date Sample.target_date
    ["data/data_backup.json"; "data/data_2024-13-01.json"] = None.
Proof.
  apply (find_comparison_file_no_date iso_date Sample.target_date).
  intros f Hf. repeat (apply elem_of_cons in Hf as [->|Hf]; [done|]).
  by apply elem_of_nil in Hf.
Defined.

Lemma find_comparison_file_spec_witness :
  find_comparison_file iso_date Sample.target_date Sample.files
  = Some "data/data_2024-04-25.json"
  ∧ ∃ (i : nat) d,
      Sample.files !! i = Some "data/data_2024-04-25.json"
      ∧ capture_day iso_date "data/data_2024-04-25.json" = Some d
      ∧ distance Sample.target_date d ≤ 2.
Proof.
  assert (E : find_comparison_file iso_date Sample.target_date Sample.files
              = Some "data/data_2024-04-25.json") by (by vm_compute).
  split; [done|].
  pose proof (find_comparison_file_spec iso_date Sample.target_date
                Sample.files) as [H _].
  rewrite E in H. destruct H as (i & d & ? & ? & ? & _). eauto.
Defined.

End SnapshotStore.

(* ===================================================================== *)
(** * The aggregate analyzer: the properties of the specification *)
(* ===================================================================== *)

Module Analyzer.
Import Py Bot Spec PyFacts DictFacts AnalyzerFacts.

(** C7, as the code has it.  The empty snapshot has no summary, which is a
    result and not an exception.  A non-empty snapshot whose records all
    carry the [language] key (null allowed) has a summary: its count is the
    number of records, its stars the sum of the star counts, its forks the
    sum of the fork counts with 0 for a record without that key.  A record
    without the [language] key makes the call raise [KeyError]. *)
Theorem analyze_data_totals :
  analyze_data [] = inr None
  ∧ (∀ repos, repos ≠ [] → Forall has_language repos →
       ∃ a, analyze_data repos = inr (Some a)
            ∧ repo_count a = Z.of_nat (length repos)
            ∧ total_stars a = total stargazers_count repos
            ∧ total_forks a = total (λ r, default 0 (forks_count r)) repos)
  ∧ (∀ repos, Exists (λ r, language r = None) repos →
       analyze_data repos = inl (KeyError "language")).
Proof.
  split_and!.
  - done.
  - intros repos Hne Hl. eexists. split; [by apply analyze_data_ok|done].
  - intros repos Hex. unfold analyze_data.
    destruct repos as [|r repos]; [by apply Exists_nil in Hex|].
    by rewrite language_list_fail.
Qed.

Lemma analyze_data_totals_witness :
  ∃ a, analyze_data [Sample.objects 0%nat; Sample.objects 1%nat] = inr (Some a)
       ∧ repo_count a = 2
       ∧ total_stars a = 150
       ∧ total_forks a = 2.
Proof.
  destruct (proj1 (proj2 analyze_data_totals)
              [Sample.objects 0%nat; Sample.objects 1%nat])
    as (a & Ha & Hc & Hs & Hf).
  - done.
  - repeat constructor; by eexists.
  - exists a. by rewrite Hc, Hs, Hf.
Defined.

(** The claim C7 as the specification words it fails on a non-empty
    snapshot with a record that has no [language] key: there is no
    summary. *)
Lemma analyze_data_without_language_key :
  [Sample.bare] ≠ []
  ∧ ¬ ∃ a, analyze_data [Sample.bare] = inr (Some a).
Proof. split; [done|]. by intros [a Ha]. Qed.

(** C8, as the code has it.  In the summary of a snapshot whose records all
    carry the [language] key, the histogram has one entry per normalized
    language, the sentinel [N/A] standing for a null (or empty) language;
    the count of an entry is the number of records with that normalized
    language, so the count under the sentinel is the number of records
    whose language is null, empty or the sentinel itself; and the entries
    come by descending count. *)
Theorem analyze_data_histogram (repos : list repo) :
  repos ≠ [] → Forall has_language repos →
  ∃ a, analyze_data repos = inr (Some a)
       ∧ NoDup (dict_keys (language_stats a))
       ∧ (∀ k, dict_get (language_stats a) k 0 = occurrences k repos)
       ∧ (∀ k, k ∈ dict_keys (language_stats a) ↔ 0 < occurrences k repos)
       ∧ (∀ r, r ∈ repos → language r = Some None →
            normalized_language r = "N/A"
            ∧ 0 < dict_get (language_stats a) "N/A" 0)
       ∧ dict_get (language_stats a) "N/A" 0
         = Z.of_nat (length (filter (λ r, language r = Some None
                                          ∨ language r = Some (Some "")
                                          ∨ language r = Some (Some "N/A"))
                                    repos))
       ∧ StronglySorted (λ x y, y.2 ≤ x.2) (language_stats a).
Proof.
  intros Hne Hl. eexists. split; [by apply analyze_data_ok|].
  cbn [language_stats].
  destruct (histogram_spec repos) as (Hnd & Hget & Hin & Hsorted).
  split_and!; [done..| | |done].
  - intros r Hr Hnull. unfold normalized_language at 1. rewrite Hnull.
    split; [done|]. rewrite Hget. unfold occurrences.
    assert (Hf : r ∈ filter (λ r, normalized_language r = "N/A") repos).
    { apply list_elem_of_filter. split; [|done].
      unfold normalized_language. by rewrite Hnull. }
    destruct (filter _ repos); [by apply elem_of_nil in Hf|simpl; lia].
  - rewrite Hget. unfold occurrences. do 2 f_equal.
    apply filter_iff_in. intros r Hr.
    rewrite Forall_forall in Hl. destruct (Hl r Hr) as [v Hv].
    unfold normalized_language. rewrite Hv.
    destruct v as [s|]; [|by split; [left|]].
    case_decide as Hs; [subst s; by split; [right; left|]|].
    split; [intros ->; by right; right|].
    intros [?|[?|?]]; congruence.
Qed.

Lemma analyze_data_histogram_witness :
  ∃ a, analyze_data [Sample.objects 0%nat; Sample.objects 1%nat;
                     Sample.objects 2%nat] = inr (Some a)
       ∧ dict_get (language_stats a) "N/A" 0 = 2.
Proof.
  destruct (analyze_data_histogram
              [Sample.objects 0%nat; Sample.objects 1%nat; Sample.objects 2%nat])
    as (a & Ha & _ & _ & _ & _ & Hna & _).
  - done.
  - repeat constructor; by eexists.
  - exists a. split; [done|]. rewrite Hna. reflexivity.
Defined.

(** The claim C8 as the specification words it fails on a record whose
    [language] key is absent: the record is not counted under the
    sentinel, the call raises. *)
Lemma analyze_data_absent_language_raises :
  language Sample.bare = None
  ∧ analyze_data [Sample.bare] = inl (KeyError "language").
Proof. done. Qed.

(** The histogram of a snapshot with ties: first seen first. *)
Lemma histogram_sample :
  most_common (Counter ["Go"; "N/A"; "N/A"; "Rust"; "Rust"; "Go"; "C"])
  = [("Go", 2); ("N/A", 2); ("Rust", 2); ("C", 1)].
Proof. by vm_compute. Qed.

End Analyzer.

(* ===================================================================== *)
(** * The descriptions, the cache file and the data file *)
(* ===================================================================== *)

Module ReportFacts.
Import Py Bot Spec Report Notions PyFacts DictFacts AnalyzerFacts.

(** ** Texts *)

Lemma or_text_nonempty (v : option text) (d : text) :
  d ≠ [] → or_text v d ≠ [].
Proof. intros Hd. by destruct v as [[|c s]|]. Qed.








(** X2.  The description of the console report has at most 103
    characters; a missing, null or empty description reads [无描述]; a
    description of at most 100 characters is shown as it is, a longer one
    as its first 100 characters and three dots; and shortening what is
    already shortened changes nothing. *)
Theorem console_description_spec :
  (∀ description, (length (console_description description) ≤ 103)%nat)
  ∧ console_description None = no_description
  ∧ console_description (Some []) = no_description
  ∧ (∀ s : text, s ≠ [] → (length s ≤ 100)%nat →
       console_description (Some s) = s)
  ∧ (∀ s : text, (100 < length s)%nat →
       console_description (Some s) = take 100 s ++ dots)
  ∧ (∀ description,
       console_description (Some (console_description description))
       = console_description description).
Proof.
  assert (Hshort : ∀ s : text, s ≠ [] → (length s ≤ 100)%nat →
                     console_description (Some s) = s).
  { intros s Hne Hlen. unfold console_description.
    assert (or_text (Some s) no_description = s) as -> by (by destruct s).
    destruct (Nat.ltb_spec 100 (length s)); [lia|done]. }
  assert (Hlong : ∀ s : text, (100 < length s)%nat →
                    console_description (Some s) = take 100 s ++ dots).
  { intros s Hlen. unfold console_description.
    assert (or_text (Some s) no_description = s) as ->
      by (destruct s; [simpl in Hlen; lia|done]).
    destruct (Nat.ltb_spec 100 (length s)); [done|lia]. }
  split_and!; [|done|done|done|done|].
  - intros description. unfold console_description.
    destruct (Nat.ltb_spec 100 (length (or_text description no_description))).
    + rewrite length_app, length_take. unfold dots. simpl length. lia.
    + lia.
  - intros description. unfold console_description at 2 3.
    set (d0 := or_text description no_description).
    assert (d0 ≠ []) by (by apply or_text_nonempty).
    destruct (Nat.ltb_spec 100 (length d0)) as [Hlt|Hle].
    + rewrite Hlong
        by (rewrite length_app, length_take; unfold dots; simpl length; lia).
      rewrite take_app_le by (rewrite length_take; lia).
      by rewrite take_take, Nat.min_id.
    + by apply Hshort.
Qed.

Lemma console_description_spec_witness :
  console_description (Some [72; 105]%N) = [72; 105]%N.
Proof.
  apply (proj1 (proj2 (proj2 (proj2 console_description_spec)))).
  - done.
  - simpl. lia.
Defined.

(** ** Paths *)

Lemma has_slash_app (a b : string) :
  has_slash (a +:+ b) = has_slash a || has_slash b.
Proof.
  induction a as [|c a IH]; [done|]. simpl. rewrite IH.
  by destruct (Ascii.eqb c "/").
Qed.

Lemma replace_slash_clean (s : string) : has_slash (replace_slash s) = false.
Proof.
  induction s as [|c s IH]; [done|]. simpl.
  destruct (Ascii.eqb c "/") eqn:E; simpl; [done|]. by rewrite E.
Qed.

Lemma basename_clean (b : string) : has_slash b = false → basename b = b.
Proof.
  destruct b as [|c b]; [done|]. simpl.
  destruct (Ascii.eqb c "/"); [done|]. simpl. by intros ->.
Qed.

Lemma basename_after_slash (a b : string) :
  has_slash b = false → basename (a +:+ String "/" b) = b.
Proof.
  intros Hb. induction a as [|c a IH]; simpl.
  - by rewrite Hb.
  - rewrite has_slash_app. simpl. rewrite orb_true_r. exact IH.
Qed.

Lemma ends_with_slash_split (a : string) :
  ends_with_slash a = true → ∃ a', a = a' +:+ "/".
Proof.
  induction a as [|c a IH]; [done|]. simpl. destruct a as [|c' a].
  - intros ->%Ascii.eqb_eq. by exists "".
  - intros [a' ->]%IH. by exists (String c a').
Qed.

Lemma string_app_assoc (a b c : string) : (a +:+ b) +:+ c = a +:+ (b +:+ c).
Proof.
  induction a as [|x a IH]; [done|].
  change (String x ((a +:+ b) +:+ c) = String x (a +:+ b +:+ c)).
  by rewrite IH.
Qed.

Lemma basename_path_join (a b : string) :
  has_slash b = false → basename (path_join a b) = b.
Proof.
  intros Hb. unfold path_join.
  assert (starts_with_slash b = false) as ->.
  { destruct b as [|c b]; [done|]. simpl in *.
    by destruct (Ascii.eqb c "/"). }
  case_decide as Ha; [subst; by apply basename_clean|].
  destruct (ends_with_slash a) eqn:Ea.
  - apply ends_with_slash_split in Ea as [a' ->].
    rewrite string_app_assoc. by apply basename_after_slash.
  - by apply basename_after_slash.
Qed.

Lemma string_length_app (a b : string) :
  String.length (a +:+ b) = (String.length a + String.length b)%nat.
Proof. induction a as [|c a IH]; [done|]. simpl. by rewrite IH. Qed.

Lemma take_str_app (a b : string) : take_str (String.length a) (a +:+ b) = a.
Proof. induction a as [|c a IH]; [by destruct b|]. simpl. by rewrite IH. Qed.

(** What the pattern [data_*.json] matched is what the slice keeps. *)
Lemma slice_data_json (s : string) :
  slice_from_to_end 5 5 ("data_" +:+ s +:+ ".json") = s.
Proof.
  unfold slice_from_to_end. rewrite !string_length_app.
  change (drop_str 5 ("data_" +:+ s +:+ ".json")) with (s +:+ ".json").
  replace (String.length "data_" + (String.length s + String.length ".json")
           - 5 - 5)%nat with (String.length s) by (simpl; lia).
  apply take_str_app.
Qed.

(** X3.  The name of a cache file never holds a slash, whatever the name of
    the repository: the cache file lies in the cache directory itself. *)
Theorem cache_file_in_cache_dir (repo_full_name : string) :
  has_slash (cache_filename repo_full_name) = false
  ∧ cache_path repo_full_name
    = "readme_cache/" +:+ cache_filename repo_full_name
  ∧ basename (cache_path repo_full_name) = cache_filename repo_full_name.
Proof.
  assert (Hc : has_slash (cache_filename repo_full_name) = false).
  { unfold cache_filename. by rewrite has_slash_app, replace_slash_clean. }
  split_and!; [done| |].
  - unfold cache_path, path_join.
    assert (starts_with_slash (cache_filename repo_full_name) = false) as ->.
    { destruct (cache_filename repo_full_name) as [|c b]; [done|].
      simpl in *. by destruct (Ascii.eqb c "/"). }
    done.
  - unfold cache_path. by apply basename_path_join.
Qed.

(** X4.  The data file that [main] writes for a day is read back by the
    lookup with that day: for every directory and every date text without
    a slash, the slice of the base name of the path is the date text; so
    the lookup among that one file returns it exactly when the date text
    parses to a day within two days of the target. *)
Theorem data_file_round_trip (strptime : string → option Z)
    (target_date : Z) (data_dir today_str : string) :
  has_slash today_str = false →
  capture_day strptime (raw_data_path data_dir today_str) = strptime today_str
  ∧ (find_comparison_file strptime target_date
       [raw_data_path data_dir today_str]
     = match strptime today_str with
       | Some d =>
           if distance target_date d <=? 2
           then Some (raw_data_path data_dir today_str) else None
       | None => None
       end).
Proof.
  intros Hs.
  assert (Hc : capture_day strptime (raw_data_path data_dir today_str)
               = strptime today_str).
  { unfold capture_day, raw_data_path. rewrite basename_path_join.
    - by rewrite slice_data_json.
    - rewrite !has_slash_app, Hs. done. }
  split; [done|]. unfold find_comparison_file, scan.
  fold (capture_day strptime (raw_data_path data_dir today_str)).
  rewrite Hc. destruct (strptime today_str) as [d|]; [|done].
  cbn [lt_ext le_ext]. unfold date_diff_of, distance, timedelta_days, day_of.
  replace (target_date - d * us_per_day)
    with (target_date + (- d) * us_per_day) by lia.
  rewrite Z.div_add by done.
  replace (target_date `div` us_per_day + - d)
    with (target_date `div` us_per_day - d) by lia.
  done.
Qed.

Lemma data_file_round_trip_witness :
  find_comparison_file iso_date Sample.target_date
    [raw_data_path "data" "2024-04-25"]
  = Some "data/data_2024-04-25.json".
Proof.
  destruct (data_file_round_trip iso_date Sample.target_date "data"
              "2024-04-25") as [_ H]; [done|].
  rewrite H. by vm_compute.
Defined.

End ReportFacts.

(* ===================================================================== *)
(** * More about the histogram *)
(* ===================================================================== *)

Module HistogramFacts.
Import Py Bot Spec Report Notions PyFacts DictFacts AnalyzerFacts.

(** A summary comes only from a non-empty snapshot whose records carry the
    language key, and then it is the one of [analyze_data_ok]. *)
Lemma analyze_data_inv (repos : list repo) (a : analysis) :
  analyze_data repos = inr (Some a) →
  repos ≠ [] ∧ Forall has_language repos
  ∧ a = {| repo_count := Z.of_nat (length repos);
           total_stars := total stargazers_count repos;
           total_forks := total (λ r, default 0 (forks_count r)) repos;
           language_stats :=
             most_common (Counter (normalized_language <$> repos)) |}.
Proof.
  intros Ha.
  assert (Hne : repos ≠ []) by (intros ->; done).
  destruct (decide (Forall has_language repos)) as [Hl|Hl].
  - rewrite analyze_data_ok in Ha by done. by injection Ha as <-.
  - apply not_Forall_Exists in Hl; [|apply _].
    assert (Hex : Exists (λ r, language r = None) repos).
    { eapply Exists_impl; [done|]. intros r Hr.
      unfold compose, has_language in Hr.
      destruct (language r) as [v|]; [|done]. destruct Hr. by eexists. }
    unfold analyze_data in Ha. destruct repos as [|r repos]; [done|].
    by rewrite language_list_fail in Ha.
Qed.

Lemma count_sum_perm (d d' : dict Z) : d ≡ₚ d' → count_sum d = count_sum d'.
Proof.
  unfold count_sum. induction 1 as [|x l l' _ IH|x y l|l l' l'' _ IH1 _ IH2];
    csimpl; lia.
Qed.

Lemma count_sum_incr (c : dict Z) (x : string) :
  count_sum (dict_set c x (dict_get c x 0 + 1)) = count_sum c + 1.
Proof.
  unfold count_sum. induction c as [|[k v] c IH]; csimpl; [done|].
  destruct (decide (k = x)); csimpl; lia.
Qed.

Lemma count_sum_Counter_from (l : list string) (acc : dict Z) :
  count_sum (fold_left (λ c x, dict_set c x (dict_get c x 0 + 1)) l acc)
  = count_sum acc + Z.of_nat (length l).
Proof.
  revert acc. induction l as [|x l IH]; intros acc; simpl fold_left.
  - simpl. lia.
  - rewrite IH, count_sum_incr. simpl length. lia.
Qed.

(** X5.  The counts of the language histogram add up to the number of
    repositories of the snapshot. *)
Theorem histogram_counts_add_up (repos : list repo) (a : analysis) :
  analyze_data repos = inr (Some a) →
  count_sum (language_stats a) = repo_count a
  ∧ repo_count a = Z.of_nat (length repos)
  ∧ Forall (λ x, 1 ≤ x.2) (language_stats a).
Proof.
  intros Ha. apply analyze_data_inv in Ha as (_ & _ & ->).
  cbn [language_stats repo_count]. split_and!; [|done|].
  - rewrite (count_sum_perm _ _ (most_common_perm _)).
    unfold Counter. rewrite count_sum_Counter_from.
    rewrite length_fmap. done.
  - rewrite Forall_forall. intros [k v] Hkv.
    destruct (histogram_spec repos) as (Hnd & Hget & Hin & _).
    cbn [snd]. rewrite <- (dict_get_elem_of _ k v 0 Hnd Hkv), Hget.
    assert (0 < occurrences k repos); [|lia].
    apply Hin. apply list_elem_of_fmap. by exists (k, v).
Qed.

Lemma histogram_counts_add_up_witness :
  ∃ a, analyze_data [Sample.objects 0%nat; Sample.objects 1%nat;
                     Sample.objects 2%nat] = inr (Some a)
       ∧ count_sum (language_stats a) = 3.
Proof.
  assert (E : ∃ a, analyze_data [Sample.objects 0%nat; Sample.objects 1%nat;
                                 Sample.objects 2%nat] = inr (Some a))
    by (eexists; vm_compute; reflexivity).
  destruct E as [a E]. exists a. split; [done|].
  destruct (histogram_counts_add_up _ a E) as (-> & -> & _). done.
Defined.

(** ** Ties *)

Lemma first_seen_from (l : list string) (acc : dict Z) :
  dict_keys (fold_left (λ c x, dict_set c x (dict_get c x 0 + 1)) l acc)
  = dict_keys acc ++ filter (λ y, y ∉ dict_keys acc) (first_seen l).
Proof.
  revert acc. induction l as [|x l IH]; intros acc; simpl fold_left.
  - simpl. by rewrite app_nil_r.
  - rewrite IH, dict_keys_set. cbn [first_seen]. rewrite filter_cons.
    destruct (decide (x ∈ dict_keys acc)) as [Hx|Hx].
    + rewrite decide_False by tauto. f_equal.
      rewrite list_filter_filter. apply list_filter_iff.
      intros y. split; [|tauto]. intros Hy. split; [done|]. by intros ->.
    + rewrite decide_True by done. rewrite <- app_assoc. f_equal.
      simpl. f_equal. rewrite list_filter_filter. apply list_filter_iff.
      intros y. rewrite not_elem_of_app, list_elem_of_singleton. tauto.
Qed.

Lemma filter_all {A} (P : A → Prop) `{!∀ x, Decision (P x)} (l : list A) :
  (∀ x, x ∈ l → P x) → filter P l = l.
Proof.
  induction l as [|x l IH]; intros HP; [done|].
  rewrite filter_cons, decide_True by apply HP, list_elem_of_here.
  rewrite IH; [done|]. intros; by apply HP, list_elem_of_further.
Qed.

Lemma Counter_keys (l : list string) : dict_keys (Counter l) = first_seen l.
Proof.
  unfold Counter. rewrite first_seen_from. simpl.
  apply filter_all. intros y _. apply not_elem_of_nil.
Qed.

Lemma filter_by_value (d : dict Z) (c : Z) :
  NoDup (dict_keys d) →
  fst <$> filter (λ x, x.2 = c) d
  = filter (λ k, dict_get d k 0 = c) (dict_keys d).
Proof.
  unfold dict_keys. induction d as [|[k v] d IH]; [done|].
  rewrite fmap_cons, NoDup_cons. cbn [fst]. intros [Hk Hd].
  rewrite (filter_cons (λ x : string * Z, x.2 = c)).
  rewrite (filter_cons (λ k0, dict_get ((k, v) :: d) k0 0 = c)).
  assert (Htl : filter (λ k0, dict_get ((k, v) :: d) k0 0 = c) (fst <$> d)
                = filter (λ k0, dict_get d k0 0 = c) (fst <$> d)).
  { apply filter_iff_in. intros k0 Hk0. cbn [dict_get].
    rewrite decide_False; [done|]. by intros ->. }
  rewrite Htl, <- IH by done.
  assert (Hhd : dict_get ((k, v) :: d) k 0 = v)
    by (cbn [dict_get]; by rewrite decide_True).
  cbn [snd]. destruct (decide (v = c)) as [Hv|Hv].
  - rewrite decide_True by (by rewrite Hhd). by rewrite fmap_cons.
  - rewrite decide_False by (by rewrite Hhd). done.
Qed.

(** X6.  Languages with the same count stand in the histogram in the order
    in which the snapshot shows them first: for every count, the histogram
    entries of that count are the languages of that count in the order of
    their first record. *)
Theorem histogram_ties_first_seen (repos : list repo) (a : analysis) (c : Z) :
  analyze_data repos = inr (Some a) →
  fst <$> filter (λ x, x.2 = c) (language_stats a)
  = filter (λ k, occurrences k repos = c)
           (first_seen (normalized_language <$> repos)).
Proof.
  intros Ha. apply analyze_data_inv in Ha as (_ & _ & ->).
  cbn [language_stats]. unfold most_common.
  pose proof (sorted_filter (A := string * Z) snd Z.ltb true
                (λ x, x.2 = c)
                (Counter (normalized_language <$> repos))) as Hstable.
  unfold dict in *. rewrite Hstable.
  - destruct (Counter_spec (normalized_language <$> repos)) as (Hnd & Hget & _).
    rewrite filter_by_value, Counter_keys by done.
    apply list_filter_iff. intros k. by rewrite Hget, count_normalized.
  - intros x y Hx Hy. unfold before. rewrite Hx, Hy. apply Z.ltb_irrefl.
Qed.

Lemma histogram_ties_first_seen_witness :
  ∃ a, analyze_data [Sample.objects 3%nat; Sample.objects 1%nat;
                     Sample.objects 0%nat; Sample.objects 2%nat]
       = inr (Some a)
       ∧ fst <$> filter (λ x, x.2 = 1) (language_stats a) = ["Rust"; "Go"].
Proof.
  assert (E : ∃ a, analyze_data [Sample.objects 3%nat; Sample.objects 1%nat;
                                 Sample.objects 0%nat; Sample.objects 2%nat]
                   = inr (Some a))
    by (eexists; vm_compute; reflexivity).
  destruct E as [a E]. exists a. split; [done|].
  rewrite (histogram_ties_first_seen _ a 1 E). by vm_compute.
Defined.

(** ** The language table *)

(** A list in the order [sorted] asks for is left as it is. *)
Lemma sorted_of_sorted {A K} (key : A → K) (lt : K → K → bool)
    (reverse : bool) (l : list A) :
  StronglySorted (λ a b, before key lt reverse b a = false) l →
  sorted key lt reverse l = l.
Proof.
  induction 1 as [|x l _ IH Hx]; [done|]. simpl. rewrite IH.
  destruct l as [|y l]; [done|]. simpl.
  apply Forall_cons in Hx as [Hy _]. by rewrite Hy.
Qed.

Lemma normalized_language_nonempty (r : repo) : normalized_language r ≠ "".
Proof.
  unfold normalized_language.
  destruct (language r) as [[s|]|]; try done. by case_decide.
Qed.

(** X7.  For a summary of [analyze_data], sorting the histogram again for
    the reports changes nothing: the language table lists the entries in
    the order of the histogram, one row per language under the two header
    rows, and no language is empty, so that the fallback [N/A] of the
    table is never used. *)
Theorem lang_table_of_summary (repos : list repo) (a : analysis) :
  analyze_data repos = inr (Some a) →
  sorted_stats a = language_stats a
  ∧ Forall (λ x, lang_display x.1 = x.1) (language_stats a)
  ∧ lang_table a
    = "| 语言 | 项目数量 |"
      :: "| :--- | :------- |"
      :: ((λ x, "| " +:+ x.1 +:+ " | " +:+ pretty x.2 +:+ "个项目 |")
          <$> language_stats a)
  ∧ length (lang_table a) = (2 + length (language_stats a))%nat.
Proof.
  intros Ha. apply analyze_data_inv in Ha as (_ & _ & ->).
  cbn [language_stats].
  set (h := most_common (Counter (normalized_language <$> repos))).
  assert (Hs : sorted_stats
                 {| repo_count := Z.of_nat (length repos);
                    total_stars := total stargazers_count repos;
                    total_forks :=
                      total (λ r, default 0 (forks_count r)) repos;
                    language_stats := h |} = h).
  { unfold sorted_stats. cbn [language_stats]. apply sorted_of_sorted.
    apply (sorted_sorted snd Z.ltb true);
      [apply Z.ltb_irrefl|apply Z_ltb_trans|apply Z_ltb_cotrans]. }
  assert (Hd : Forall (λ x, lang_display x.1 = x.1) h).
  { rewrite Forall_forall. intros [k v] Hkv. cbn [fst].
    unfold lang_display. rewrite decide_False; [done|].
    assert (Hk : k ∈ dict_keys h)
      by (apply list_elem_of_fmap; by exists (k, v)).
    unfold h, dict_keys in Hk. rewrite most_common_perm in Hk.
    apply (Counter_spec (normalized_language <$> repos)) in Hk.
    apply list_elem_of_fmap in Hk as (r & -> & _).
    apply normalized_language_nonempty. }
  split_and!; [done|done| |].
  - unfold lang_table. rewrite Hs. do 2 f_equal.
    apply list_fmap_ext. intros i [k v] Hi. cbn [fst snd].
    rewrite Forall_forall in Hd.
    pose proof (Hd (k, v) (list_elem_of_lookup_2 _ _ _ Hi)) as E.
    cbn [fst] in E. by rewrite E.
  - unfold lang_table. rewrite Hs. simpl. by rewrite length_fmap.
Qed.

Lemma lang_table_of_summary_witness :
  ∃ a, analyze_data [Sample.objects 0%nat; Sample.objects 1%nat;
                     Sample.objects 2%nat] = inr (Some a)
       ∧ lang_table a
         = ["| 语言 | 项目数量 |"; "| :--- | :------- |";
            "| N/A | 2个项目 |"; "| Go | 1个项目 |"].
Proof.
  assert (E : ∃ a, analyze_data [Sample.objects 0%nat; Sample.objects 1%nat;
                                 Sample.objects 2%nat] = inr (Some a))
    by (eexists; vm_compute; reflexivity).
  destruct E as [a E]. exists a. split; [done|].
  destruct (lang_table_of_summary _ a E) as (_ & _ & -> & _).
  vm_compute in E. injection E as <-. by vm_compute.
Defined.

End HistogramFacts.

(* ===================================================================== *)
(** * The trend comparison, further *)
(* ===================================================================== *)

Module TrendFacts.
Import Py Bot Spec Notions PyFacts DictFacts AnalyzerFacts LoopFacts.
Import FloatFacts.
Local Open Scope m_scope.

(** ** Quotients of equal magnitude *)

(** The quotient of two integers of the same magnitude is exactly one, up
    to the sign. *)
Lemma SFdiv_same (s1 s2 : bool) (m : positive) :
  SFdiv prec emax (S754_finite s1 m 0) (S754_finite s2 m 0)
  = S754_finite (xorb s1 s2) 4503599627370496 (-52).
Proof.
  unfold SFdiv, SFdiv_core_binary.
  replace (Zdigits2 (Z.pos m) + 0 - (Zdigits2 (Z.pos m) + 0)) with 0 by lia.
  change (Z.min (fexp prec emax 0) (0 - 0)) with (-53).
  change (0 - 0 - -53) with 53.
  cbv iota.
  assert (E : Z.div_eucl (Z.shiftl (Z.pos m) 53) (Z.pos m) = (2 ^ 53, 0)).
  { rewrite Z.shiftl_mul_pow2 by lia. rewrite Z.mul_comm.
    pose proof (Z.div_mul (2 ^ 53) (Z.pos m) ltac:(lia)) as Hq.
    pose proof (Z.mod_mul (2 ^ 53) (Z.pos m) ltac:(lia)) as Hr.
    unfold Z.div, Z.modulo in Hq, Hr.
    destruct (Z.div_eucl _ _) as [q r]. by subst. }
  rewrite E.
  assert (L : new_location (Z.pos m) 0 = loc_Exact).
  { unfold new_location. by destruct (Z.even _). }
  rewrite L. by destruct s1, s2.
Qed.

Lemma int_truediv_same (p : Z) :
  0 < p →
  int_truediv p p = inr (S754_finite false 4503599627370496 (-52))
  ∧ int_truediv (- p) p = inr (S754_finite true 4503599627370496 (-52)).
Proof.
  intros Hp. unfold int_truediv. destruct p as [|p|p]; try lia.
  change (- Z.pos p) with (Z.neg p). cbn [Z.eqb exact_of_int]. by rewrite !SFdiv_same.
Qed.

(** X8.  The line of a language in the comparison: nothing is printed for
    a language whose count is the same in both summaries; a language that
    is new in the current summary is shown with N/A for its percentage,
    the division being skipped; a language that has left the summary is
    shown with -100.00%, and one whose count has doubled with +100.00%. *)
Theorem language_line_cases pa ca lang w :
  let p := dict_get (language_stats pa) lang 0 in
  let c := dict_get (language_stats ca) lang 0 in
  (p = c → language_change pa ca lang w = (inr tt, w))
  ∧ (p = 0 → c ≠ 0 →
     language_change pa ca lang w = print (lang_line lang 0 c "N/A") w)
  ∧ (0 < p → c = 0 →
     language_change pa ca lang w = print (lang_line lang p 0 "-100.00%") w)
  ∧ (0 < p → c = 2 * p →
     language_change pa ca lang w
     = print (lang_line lang p (2 * p) "+100.00%") w).
Proof.
  intros p c. unfold language_change. fold p c. split_and!.
  - intros <-. by rewrite Z.eqb_refl.
  - intros -> Hc. rewrite (proj2 (Z.eqb_neq 0 c)) by done.
    cbn [negb Z.eqb]. unfold bind, ret, lang_line.
    by rewrite Z.sub_0_r.
  - intros Hp ->. rewrite (proj2 (Z.eqb_neq p 0)) by lia.
    cbn [negb]. replace (0 - p) with (- p) by lia.
    destruct (int_truediv_same p Hp) as [_ ->].
    unfold bind, ret, lift, lang_line.
    replace (0 - p) with (- p) by lia. done.
  - intros Hp ->. rewrite (proj2 (Z.eqb_neq p (2 * p))) by lia.
    rewrite (proj2 (Z.eqb_neq p 0)) by lia.
    cbn [negb]. replace (2 * p - p) with p by lia.
    destruct (int_truediv_same p Hp) as [-> _].
    unfold bind, ret, lift, lang_line.
    replace (2 * p - p) with p by lia. done.
Qed.

Lemma language_line_cases_witness :
  language_change Sample.previous_analysis Sample.current_analysis "Go"
    Sample.start
  = print (lang_line "Go" 1 0 "-100.00%") Sample.start
  ∧ language_change Sample.previous_analysis Sample.current_analysis "Rust"
      Sample.start
    = print (lang_line "Rust" 0 1 "N/A") Sample.start.
Proof.
  split.
  - pose proof (language_line_cases Sample.previous_analysis
                  Sample.current_analysis "Go" Sample.start) as H.
    cbv zeta in H. destruct H as (_ & _ & H & _). by apply H.
  - pose proof (language_line_cases Sample.previous_analysis
                  Sample.current_analysis "Rust" Sample.start) as H.
    cbv zeta in H. destruct H as (_ & H & _). by apply H.
Defined.

(** ** The identity index *)

(** What the index built from [repos], starting at rank [i] over [d],
    holds for an identifier: the entry of [d] when no record has the
    identifier, and otherwise the position and the star count of the last
    record that has it. *)
Lemma index_from_last h repos i (d : gmap string entry) k e :
  index_from h repos i d !! k = Some e ↔
  ((k ∉ identifiers h repos) ∧ d !! k = Some e)
  ∨ ∃ (j : nat) r,
      repos !! j = Some r ∧ full_name (h r) = k
      ∧ (∀ (j' : nat) r', (j < j')%nat → repos !! j' = Some r' →
           full_name (h r') ≠ k)
      ∧ e = {| rank := i + Z.of_nat j; stars := stargazers_count (h r) |}.
Proof.
  revert i d. induction repos as [|r0 repos IH]; intros i d.
  { csimpl. split.
    - intros H. left. split; [apply not_elem_of_nil|done].
    - intros [[_ H]|(j & r & Hj & _)]; [done|]. by destruct j. }
  cbn [index_from]. rewrite IH. clear IH. split.
  - intros [[Hk Hd]|(j & r & Hj & Hr & Hlast & ->)].
    + destruct (decide (full_name (h r0) = k)) as [E|E].
      * right. exists 0%nat, r0. rewrite E in Hd.
        rewrite lookup_insert_eq in Hd. injection Hd as <-.
        split_and!; [done|done| |f_equal; lia].
        intros [|j'] r' Hlt Hj'; [lia|]. cbn in Hj'.
        intros Hr'. apply Hk. rewrite <- Hr'.
        apply list_elem_of_fmap. exists r'. split; [done|].
        by eapply list_elem_of_lookup_2.
      * left. rewrite lookup_insert_ne in Hd by done. split; [|done].
        csimpl. rewrite not_elem_of_cons. by split.
    + right. exists (S j), r. split_and!; [done|done| |f_equal; lia].
      intros [|j'] r' Hlt Hj'; [lia|]. cbn in Hj'.
      apply (Hlast j' r'); [lia|done].
  - intros [[Hk Hd]|(j & r & Hj & Hr & Hlast & ->)].
    + csimpl in Hk. apply not_elem_of_cons in Hk as [Hne Hk].
      left. split; [done|]. by rewrite lookup_insert_ne.
    + destruct j as [|j].
      * injection Hj as ->. left. split.
        -- intros Hin. apply list_elem_of_fmap in Hin as (r' & Hr' & Hin).
           apply list_elem_of_lookup in Hin as [j' Hj'].
           apply (Hlast (S j') r'); [lia|done|done].
        -- rewrite Hr, lookup_insert_eq. do 2 f_equal. lia.
      * right. exists j, r. split_and!; [done|done| |f_equal; lia].
        intros j' r' Hlt Hj'. apply (Hlast (S j') r'); [lia|done].
Qed.

(** X9.  The identity index of a snapshot holds, for every identifier of
    the snapshot, the 1-based position and the star count of the last
    record with that identifier, and nothing else: a repository listed
    twice is ranked where it is listed last, and every rank is a position
    of the snapshot. *)
Theorem index_loop_last_occurrence repos w d w' :
  index_loop repos 1 ∅ w = (inr d, w') →
  w' = w
  ∧ (∀ k e,
       d !! k = Some e ↔
       ∃ (j : nat) r,
         repos !! j = Some r ∧ full_name (store w r) = k
         ∧ (∀ (j' : nat) r', (j < j')%nat → repos !! j' = Some r' →
              full_name (store w r') ≠ k)
         ∧ e = {| rank := Z.of_nat j + 1;
                  stars := stargazers_count (store w r) |})
  ∧ (∀ k e, d !! k = Some e → 1 ≤ rank e ≤ Z.of_nat (length repos)).
Proof.
  rewrite index_loop_run. intros [= <- <-].
  assert (Hiff : ∀ k e,
    index_from (store w) repos 1 ∅ !! k = Some e ↔
    ∃ (j : nat) r,
      repos !! j = Some r ∧ full_name (store w r) = k
      ∧ (∀ (j' : nat) r', (j < j')%nat → repos !! j' = Some r' →
           full_name (store w r') ≠ k)
      ∧ e = {| rank := Z.of_nat j + 1;
               stars := stargazers_count (store w r) |}).
  { intros k e. rewrite index_from_last. split.
    - intros [[_ H]|(j & r & Hj & Hr & Hlast & ->)]; [done|].
      exists j, r. split_and!; [done..|]. f_equal. lia.
    - intros (j & r & Hj & Hr & Hlast & ->). right.
      exists j, r. split_and!; [done..|]. f_equal. lia. }
  split_and!; [done|done|].
  intros k e [j [r (Hj & _ & _ & ->)]]%Hiff.
  apply lookup_lt_Some in Hj. cbn [rank]. lia.
Qed.

Lemma index_loop_last_occurrence_witness :
  ∃ d, index_loop [0; 1; 2]%nat 1 ∅ Sample.start = (inr d, Sample.start)
       ∧ d !! "octo/b" = Some {| rank := 3; stars := 80 |}
       ∧ d !! "octo/a" = Some {| rank := 1; stars := 100 |}.
Proof.
  assert (E : ∃ d, index_loop [0; 1; 2]%nat 1 ∅ Sample.start
                   = (inr d, Sample.start))
    by (eexists; by rewrite index_loop_run).
  destruct E as [d E]. exists d. split; [done|].
  destruct (index_loop_last_occurrence _ _ _ _ E) as (_ & H & _).
  split; apply H.
  - exists 2%nat, 2%nat. split_and!; [done..| |done].
    intros j' r' Hlt Hj'. apply lookup_lt_Some in Hj'. cbn in Hj'. lia.
  - exists 0%nat, 0%nat. split_and!; [done..| |done].
    intros [|[|[|j']]] r' Hlt Hj'; [lia|..]; by simplify_eq/=.
Defined.

(** ** New entrants and rank changes *)

Lemma rank_loop_result (previous_repos current_repos : list loc) w changes w' :
  rank_loop (index_of (store w) previous_repos)
            (index_of (store w) current_repos) current_repos [] w
  = (inr changes, w') →
  changes = omap (rank_change_of (store w)
                    (index_of (store w) previous_repos)
                    (index_of (store w) current_repos)) current_repos.
Proof.
  intros H.
  assert (Hcd : ∀ r, r ∈ current_repos →
            full_name (store w r) ∈ dom (index_of (store w) current_repos)).
  { intros r Hr. apply index_of_dom, list_elem_of_fmap. eauto. }
  destruct (rank_loop_run (index_of (store w) previous_repos) _
              current_repos [] w Hcd) as (w'' & E & _).
  rewrite E in H. by injection H as <- _.
Qed.

Lemma moved_iff h pd cd (repos : list loc) r :
  r ∈ moved (omap (rank_change_of h pd cd) repos)
  ↔ r ∈ repos ∧ is_Some (rank_change_of h pd cd r).
Proof.
  unfold moved. rewrite list_elem_of_fmap. split.
  - intros (x & -> & Hx). apply list_elem_of_omap in Hx as (y & Hy & Hx).
    unfold rank_change_of in Hx.
    destruct (pd !! _) as [pe|] eqn:Ep; [|done].
    destruct (cd !! _) as [ce|] eqn:Ec; [|done].
    case_decide; [done|]. injection Hx as <-. cbn.
    split; [done|]. unfold rank_change_of. rewrite Ep, Ec.
    by rewrite decide_False.
  - intros [Hr [x Hx]]. exists x. split.
    + unfold rank_change_of in Hx.
      destruct (pd !! _) as [pe|]; [|done].
      destruct (cd !! _) as [ce|]; [|done].
      case_decide; [done|]. by injection Hx as <-.
    + apply list_elem_of_omap. eauto.
Qed.

Lemma filter_omap_length {A B} (P : A → Prop) `{∀ x, Decision (P x)}
    (f : A → option B) (l : list A) :
  (∀ x, P x → f x = None) →
  (length (filter P l) + length (omap f l) ≤ length l)%nat.
Proof.
  intros HP. induction l as [|x l IH]; [done|].
  rewrite filter_cons. csimpl. destruct (decide (P x)) as [Hx|Hx].
  - rewrite (HP x Hx). simpl. lia.
  - destruct (f x); simpl; lia.
Qed.

(** X10.  Every record of the current snapshot is of exactly one kind: a
    new entrant (its identifier is not in the previous index), a record
    with a rank change, or a record that has the same rank in both
    indexes and is reported nowhere; so no record is listed both as new
    and as moved, and the two lists together are no longer than the
    snapshot. *)
Theorem new_and_moved_partition previous_repos current_repos w
    new_projects w1 rank_changes w2 :
  let h := store w in
  let prev_dict := index_of h previous_repos in
  let curr_dict := index_of h current_repos in
  select_new_projects prev_dict current_repos w = (inr new_projects, w1) →
  rank_loop prev_dict curr_dict current_repos [] w1 = (inr rank_changes, w2) →
  (∀ r, r ∈ new_projects → r ∉ moved rank_changes)
  ∧ (length new_projects + length rank_changes ≤ length current_repos)%nat
  ∧ (∀ r, r ∈ current_repos → r ∉ new_projects → r ∉ moved rank_changes →
       ∃ pe ce, prev_dict !! full_name (h r) = Some pe
                ∧ curr_dict !! full_name (h r) = Some ce
                ∧ rank pe = rank ce).
Proof.
  intros h pd cd. rewrite new_projects_run. intros [= <- <-] Hrc.
  apply rank_loop_result in Hrc as ->. fold h pd cd.
  assert (Hnone : ∀ r, full_name (h r) ∉ dom pd →
                       rank_change_of h pd cd r = None).
  { intros r Hr. apply not_elem_of_dom in Hr.
    unfold rank_change_of. by rewrite Hr. }
  split_and!.
  - intros r [Hr _]%list_elem_of_filter [_ [x Hx]]%moved_iff.
    by rewrite Hnone in Hx.
  - by apply filter_omap_length.
  - intros r Hr Hnew Hmov.
    assert (Hin : full_name (h r) ∈ dom pd).
    { destruct (decide (full_name (h r) ∈ dom pd)) as [|Hn]; [done|].
      exfalso. apply Hnew. by apply list_elem_of_filter. }
    apply elem_of_dom in Hin as [pe Hpe].
    assert (Hc : full_name (h r) ∈ dom cd).
    { apply index_of_dom, list_elem_of_fmap. eauto. }
    apply elem_of_dom in Hc as [ce Hce].
    exists pe, ce. split_and!; [done..|].
    destruct (decide (rank pe = rank ce)) as [|Hne]; [done|].
    exfalso. apply Hmov, moved_iff. split; [done|].
    unfold rank_change_of. rewrite Hpe, Hce. by rewrite decide_False.
Qed.

Lemma new_and_moved_partition_witness :
  ∃ new_projects rank_changes w2,
    select_new_projects (index_of Sample.objects Sample.previous_repos)
      Sample.current_repos Sample.start = (inr new_projects, Sample.start)
    ∧ rank_loop (index_of Sample.objects Sample.previous_repos)
        (index_of Sample.objects Sample.current_repos)
        Sample.current_repos [] Sample.start = (inr rank_changes, w2)
    ∧ new_projects = [3%nat] ∧ moved rank_changes = [2%nat]
    ∧ ∀ r, r ∈ new_projects → r ∉ moved rank_changes.
Proof.
  assert (E1 : ∃ np, select_new_projects
                       (index_of Sample.objects Sample.previous_repos)
                       Sample.current_repos Sample.start
                     = (inr np, Sample.start) ∧ np = [3%nat])
    by (eexists; split; [by rewrite new_projects_run|by vm_compute]).
  destruct E1 as (np & E1 & Hnp).
  assert (E2 : ∃ rcs w2, rank_loop
                       (index_of Sample.objects Sample.previous_repos)
                       (index_of Sample.objects Sample.current_repos)
                       Sample.current_repos [] Sample.start
                     = (inr rcs, w2) ∧ moved rcs = [2%nat])
    by (do 2 eexists; split; [vm_compute; reflexivity|by vm_compute]).
  destruct E2 as (rcs & w2 & E2 & Hrcs).
  exists np, rcs, w2. split_and!; [done..|].
  by destruct (new_and_moved_partition Sample.previous_repos
                 Sample.current_repos Sample.start np Sample.start rcs w2
                 E1 E2) as (H & _).
Defined.

(** ** The rank deltas of a reshuffle *)

Lemma rank_sum_perm d (ids ids' : list string) :
  ids ≡ₚ ids' → rank_sum d ids = rank_sum d ids'.
Proof.
  unfold rank_sum. induction 1; csimpl; lia.
Qed.

(** The ranks of a snapshot with distinct identifiers are the numbers from
    [i] on, whatever the order. *)
Lemma rank_sum_index h repos i (d : gmap string entry) :
  NoDup (identifiers h repos) →
  2 * rank_sum (index_from h repos i d) (identifiers h repos)
  = Z.of_nat (length repos) * (2 * i + Z.of_nat (length repos) - 1).
Proof.
  revert i d. induction repos as [|r repos IH]; intros i d; [done|].
  csimpl. rewrite NoDup_cons. intros [Hr Hnd].
  unfold rank_sum in *. csimpl.
  specialize (IH (i + 1)
    (<[full_name (h r) :=
         {| rank := i; stars := stargazers_count (h r) |}]> d) Hnd).
  unfold rank_in at 1. rewrite index_from_notin by done.
  rewrite lookup_insert_eq. cbn [rank]. nia.
Qed.

Lemma delta_sum_omap h pd cd (repos : list loc) :
  (∀ r, r ∈ repos → is_Some (pd !! full_name (h r))
                    ∧ is_Some (cd !! full_name (h r))) →
  delta_sum (omap (rank_change_of h pd cd) repos)
  = rank_sum pd (identifiers h repos) - rank_sum cd (identifiers h repos).
Proof.
  unfold delta_sum, rank_sum, identifiers.
  induction repos as [|r repos IH]; intros Hin; [done|].
  destruct (Hin r (list_elem_of_here _ _)) as [[pe Hpe] [ce Hce]].
  assert (IH' := IH (λ x Hx, Hin x (list_elem_of_further _ _ _ Hx))).
  clear IH. csimpl.
  unfold rank_change_of at 1, rank_in at 1 3. rewrite Hpe, Hce.
  unfold rc_change in *. case_decide; csimpl; cbn [snd]; lia.
Qed.

Lemma delta_sum_perm (l l' : list rank_change) :
  l ≡ₚ l' → delta_sum l = delta_sum l'.
Proof.
  unfold delta_sum. induction 1; csimpl; lia.
Qed.

(** X11.  When the two snapshots hold the same repositories, each once,
    the rank deltas cancel: the positions gained by the records that moved
    up are the positions lost by those that moved down, in the list of
    rank changes and in the sorted list that is printed. *)
Theorem rank_deltas_cancel previous_repos current_repos w rank_changes w' :
  let h := store w in
  NoDup (identifiers h previous_repos) →
  identifiers h previous_repos ≡ₚ identifiers h current_repos →
  rank_loop (index_of h previous_repos) (index_of h current_repos)
    current_repos [] w = (inr rank_changes, w') →
  delta_sum rank_changes = 0
  ∧ delta_sum (sorted_rank_changes rank_changes) = 0.
Proof.
  intros h Hnd Hperm Hrc. apply rank_loop_result in Hrc as ->. fold h.
  assert (Hnd' : NoDup (identifiers h current_repos)) by by rewrite <- Hperm.
  assert (Hlen : length previous_repos = length current_repos).
  { apply Permutation_length in Hperm. unfold identifiers in Hperm.
    by rewrite !length_fmap in Hperm. }
  assert (Hsum : delta_sum (omap (rank_change_of h (index_of h previous_repos)
                                    (index_of h current_repos))
                              current_repos) = 0).
  { rewrite delta_sum_omap.
    - rewrite <- (rank_sum_perm _ _ _ Hperm) at 1.
      pose proof (rank_sum_index h previous_repos 1 ∅ Hnd) as Hp.
      pose proof (rank_sum_index h current_repos 1 ∅ Hnd') as Hc.
      fold (index_of h previous_repos) in Hp.
      fold (index_of h current_repos) in Hc.
      rewrite Hlen in Hp. lia.
    - intros r Hr.
      assert (Hc : full_name (h r) ∈ identifiers h current_repos).
      { apply list_elem_of_fmap. eauto. }
      split; apply elem_of_dom, index_of_dom; [by rewrite Hperm|done]. }
  split; [done|].
  rewrite <- Hsum. apply delta_sum_perm, sorted_perm.
Qed.

Lemma rank_deltas_cancel_witness :
  ∃ rank_changes w',
    rank_loop (index_of Sample.objects [0; 1]%nat)
      (index_of Sample.objects [2; 0]%nat) [2; 0]%nat [] Sample.start
    = (inr rank_changes, w')
    ∧ rc_change <$> rank_changes = [1; -1]
    ∧ delta_sum rank_changes = 0.
Proof.
  assert (E : ∃ rcs w', rank_loop (index_of Sample.objects [0; 1]%nat)
                          (index_of Sample.objects [2; 0]%nat) [2; 0]%nat []
                          Sample.start = (inr rcs, w')
                        ∧ rc_change <$> rcs = [1; -1])
    by (do 2 eexists; split; [vm_compute; reflexivity|by vm_compute]).
  destruct E as (rcs & w' & E & Hd). exists rcs, w'.
  split_and!; [done..|].
  apply (rank_deltas_cancel [0; 1]%nat [2; 0]%nat Sample.start rcs w').
  - apply (bool_decide_unpack _). by vm_compute.
  - apply perm_swap.
  - done.
Defined.

(** ** The whole comparison on the scenario of the specification *)

Lemma compare_trends_returns_witness :
  ∃ w', compare_trends Sample.previous_analysis Sample.current_analysis
          Sample.previous_repos Sample.current_repos Sample.start
        = (inr tt, w').
Proof.
  apply (Comparator.compare_trends_returns Sample.previous_analysis
           Sample.current_analysis Sample.previous_repos
           Sample.current_repos Sample.start).
  - by vm_compute.
  - by vm_compute.
  - intros lang. unfold Sample.previous_analysis, Sample.current_analysis.
    cbn [language_stats dict_get]. repeat case_decide; by vm_compute.
  - intros [|[|[|l]]]; by vm_compute.
Defined.

Lemma compare_trends_output_witness :
  ∃ w' lang_lines rank_lines,
    compare_trends Sample.previous_analysis Sample.current_analysis
      Sample.previous_repos Sample.current_repos Sample.start
    = (inr tt, w')
    ∧ lang_line_data <$> lang_lines
      = [Some ("Go", 1, 0, -1); Some ("Rust", 0, 1, 1)]
    ∧ rank_line_data <$> rank_lines = [Some ("📈", "b", 2, 1, 1)].
Proof.
  assert (E : ∃ w', compare_trends Sample.previous_analysis
                      Sample.current_analysis Sample.previous_repos
                      Sample.current_repos Sample.start = (inr tt, w'))
    by (eexists; vm_compute; reflexivity).
  destruct E as [w' E].
  destruct (Comparator.compare_trends_output _ _ _ _ _ _ E)
    as (sp & fp & ll & rl & _ & Hl & Hr).
  exists w', ll, rl. split_and!; [done| |].
  - rewrite Hl. by vm_compute.
  - rewrite Hr. by vm_compute.
Defined.

(** ** The language lines of two summaries of snapshots *)

Lemma get_sum_perm d (L L' : list string) :
  L ≡ₚ L' → get_sum d L = get_sum d L'.
Proof. unfold get_sum. induction 1; csimpl; lia. Qed.

Lemma get_sum_skip (k0 : string) (v0 : Z) (d : dict Z) (L : list string) :
  k0 ∉ L → get_sum ((k0, v0) :: d) L = get_sum d L.
Proof.
  unfold get_sum. induction L as [|x L IH]; [done|].
  rewrite not_elem_of_cons. intros [Hne HL]. rewrite !fmap_cons.
  cbn [foldr]. rewrite IH by done. cbn [dict_get]. by rewrite decide_False.
Qed.

Lemma get_sum_cons (k0 : string) (v0 : Z) (d : dict Z) (L : list string) :
  NoDup L → k0 ∈ L → k0 ∉ dict_keys d →
  get_sum ((k0, v0) :: d) L = v0 + get_sum d L.
Proof.
  intros Hnd Hin Hk. induction Hnd as [|x L Hx Hnd IH].
  { by apply elem_of_nil in Hin. }
  destruct (decide (k0 = x)) as [->|Hne].
  - pose proof (get_sum_skip x v0 d L Hx) as E.
    unfold get_sum in *. rewrite !fmap_cons. cbn [foldr]. rewrite E.
    cbn [dict_get]. rewrite decide_True by done.
    by rewrite (dict_get_absent d x 0 Hk).
  - apply elem_of_cons in Hin as [?|Hin]; [done|].
    specialize (IH Hin). unfold get_sum in *. rewrite !fmap_cons.
    cbn [foldr]. rewrite IH. cbn [dict_get].
    rewrite decide_False by done. lia.
Qed.

(** The counts a histogram gives a list of distinct keys that has all the
    keys of the histogram add up to the sum of its counts. *)
Lemma get_sum_all (d : dict Z) (L : list string) :
  NoDup (dict_keys d) → NoDup L → (∀ k, k ∈ dict_keys d → k ∈ L) →
  get_sum d L = count_sum d.
Proof.
  intros Hd HL. induction d as [|[k0 v0] d IH]; intros Hsub.
  - unfold get_sum, count_sum. clear. induction L; csimpl in *; lia.
  - csimpl in Hd. apply NoDup_cons in Hd as [Hk0 Hd].
    rewrite get_sum_cons; [|done|apply Hsub, list_elem_of_here|done].
    rewrite IH; [done..|].
    intros k Hk. by apply Hsub, list_elem_of_further.
Qed.

Lemma lang_delta_sum_all (pa ca : analysis) :
  lang_delta_sum pa ca
  = get_sum (language_stats ca) (sorted_strings (all_langs pa ca))
    - get_sum (language_stats pa) (sorted_strings (all_langs pa ca)).
Proof.
  unfold lang_delta_sum, changed_langs, get_sum.
  induction (sorted_strings (all_langs pa ca)) as [|x L IH]; [done|].
  rewrite filter_cons. unfold lang_delta in *.
  case_decide; csimpl; lia.
Qed.

Lemma count_sum_histogram (repos : list repo) :
  count_sum (most_common (Counter (normalized_language <$> repos)))
  = Z.of_nat (length repos).
Proof.
  rewrite (HistogramFacts.count_sum_perm _ _ (most_common_perm _)).
  unfold Counter. rewrite HistogramFacts.count_sum_Counter_from.
  by rewrite length_fmap.
Qed.

(** X16.  As the program uses them, with each summary computed from its
    snapshot: the changes shown on the language lines add up to the
    difference between the sizes of the two snapshots. *)
Theorem language_deltas_add_up (previous_data repos : list repo) pa ca :
  analyze_data previous_data = inr (Some pa) →
  analyze_data repos = inr (Some ca) →
  lang_delta_sum pa ca = repo_count ca - repo_count pa
  ∧ repo_count ca - repo_count pa
    = Z.of_nat (length repos) - Z.of_nat (length previous_data).
Proof.
  intros (_ & _ & Hpa)%HistogramFacts.analyze_data_inv
         (_ & _ & Hca)%HistogramFacts.analyze_data_inv.
  assert (Hp : repo_count pa = Z.of_nat (length previous_data))
    by by rewrite Hpa.
  assert (Hc : repo_count ca = Z.of_nat (length repos)) by by rewrite Hca.
  split; [|lia].
  rewrite lang_delta_sum_all.
  assert (HL : NoDup (sorted_strings (all_langs pa ca))).
  { unfold sorted_strings. rewrite sorted_perm. apply NoDup_elements. }
  assert (Hin : ∀ k, k ∈ sorted_strings (all_langs pa ca)
                     ↔ k ∈ dict_keys (language_stats pa)
                       ∨ k ∈ dict_keys (language_stats ca)).
  { intros k. unfold sorted_strings. rewrite sorted_perm.
    rewrite elem_of_elements. unfold all_langs.
    by rewrite elem_of_union, !elem_of_list_to_set. }
  assert (Hndp : NoDup (dict_keys (language_stats pa))).
  { rewrite Hpa. by destruct (histogram_spec previous_data) as (? & _). }
  assert (Hndc : NoDup (dict_keys (language_stats ca))).
  { rewrite Hca. by destruct (histogram_spec repos) as (? & _). }
  assert (Hsp : count_sum (language_stats pa) = repo_count pa).
  { rewrite Hpa. apply count_sum_histogram. }
  assert (Hsc : count_sum (language_stats ca) = repo_count ca).
  { rewrite Hca. apply count_sum_histogram. }
  rewrite (get_sum_all (language_stats ca) _ Hndc HL)
    by (intros k Hk; apply Hin; by right).
  rewrite (get_sum_all (language_stats pa) _ Hndp HL)
    by (intros k Hk; apply Hin; by left).
  lia.
Qed.

Lemma language_deltas_add_up_witness :
  ∃ pa ca,
    analyze_data (Sample.objects <$> [0; 1]%nat) = inr (Some pa)
    ∧ analyze_data (Sample.objects <$> [2; 3; 0]%nat) = inr (Some ca)
    ∧ changed_langs pa ca = ["Rust"]
    ∧ lang_delta_sum pa ca = 1.
Proof.
  assert (E1 : ∃ pa, analyze_data (Sample.objects <$> [0; 1]%nat)
                     = inr (Some pa)) by (eexists; vm_compute; reflexivity).
  assert (E2 : ∃ ca, analyze_data (Sample.objects <$> [2; 3; 0]%nat)
                     = inr (Some ca)) by (eexists; vm_compute; reflexivity).
  destruct E1 as [pa E1], E2 as [ca E2]. exists pa, ca.
  split_and!; [done..| |].
  - vm_compute in E1, E2. injection E1 as <-. injection E2 as <-.
    by vm_compute.
  - destruct (language_deltas_add_up _ _ _ _ E1 E2) as [-> ->]. done.
Defined.

End TrendFacts.

(* ===================================================================== *)
(** * The snapshot lookup, further *)
(* ===================================================================== *)

Module SnapshotFacts.
Import Py Bot Spec.

Section Files.
Variable strptime : string → option Z.
Variable target_date : Z.

Local Abbreviation capture_day := (Spec.capture_day strptime).
Local Abbreviation distance := (Spec.distance target_date).
Local Abbreviation find := (find_comparison_file strptime target_date).

Lemma scan_filter (files : list string) c m :
  scan strptime target_date files c m
  = scan strptime target_date
      (filter (λ f, is_Some (capture_day f)) files) c m.
Proof.
  revert c m. induction files as [|file files IH]; intros c m; [done|].
  rewrite filter_cons. unfold Spec.capture_day at 1.
  destruct (decide _) as [[d Hd]|Hn].
  - cbn [scan]. rewrite Hd. by rewrite <- !IH.
  - cbn [scan].
    destruct (strptime _) as [d|] eqn:Hd; [by destruct Hn|apply IH].
Qed.

(** X14.  The files whose name spells no date do not count: the lookup
    answers as it does on the list without them. *)
Theorem find_comparison_file_skips_bad_names (files : list string) :
  find files = find (filter (λ f, is_Some (capture_day f)) files).
Proof.
  unfold find_comparison_file.
  rewrite (scan_filter files None Inf).
  destruct files as [|file files]; [done|].
  destruct (filter _ (file :: files)) as [|g gs] eqn:E; [done|done].
Qed.

(** The answer of the lookup is a candidate of least distance, within the
    tolerance; without an answer every candidate is beyond it. *)
Lemma find_least (files : list string) :
  match find files with
  | Some f =>
      ∃ d, f ∈ files ∧ capture_day f = Some d ∧ distance d ≤ 2
           ∧ ∀ f' d', f' ∈ files → capture_day f' = Some d' →
                      distance d ≤ distance d'
  | None => ∀ f d, f ∈ files → capture_day f = Some d → 2 < distance d
  end.
Proof.
  unfold find_comparison_file. destruct files as [|file files].
  { intros f d Hf. by apply elem_of_nil in Hf. }
  pose proof (SnapshotStore.scan_best strptime target_date
                (file :: files) [] None Inf) as Hb.
  rewrite app_nil_l in Hb.
  destruct (scan strptime target_date (file :: files) None Inf) as [c m].
  cbn [fst snd] in Hb.
  assert (Hb' : Spec.best strptime target_date (file :: files) c m).
  { apply Hb. intros f d Hf. by apply elem_of_nil in Hf. }
  clear Hb. unfold Spec.best in Hb'. destruct c as [f|], m as [|v]; try done.
  - destruct Hb' as (i & d & Hi & Hd & <- & Hmin).
    cbn [le_ext]. destruct (Z.leb_spec (distance d) 2) as [Hle|Hgt].
    + exists d. split_and!; [by eapply list_elem_of_lookup_2|done..|].
      intros f' d' [j Hj]%list_elem_of_lookup Hd'.
      by destruct (Hmin j f' d' Hj Hd').
    + intros f' d' [j Hj]%list_elem_of_lookup Hd'.
      destruct (Hmin j f' d' Hj Hd'). lia.
  - cbn [le_ext]. intros f d Hf Hd. by destruct (Hb' f d Hf Hd).
Qed.

(** X15.  The order in which the directory lists the files decides
    nothing but the choice between candidates at the same distance: on
    two listings of the same files the lookup finds a file on both or on
    neither, and the two files it finds are at the same distance from the
    target. *)
Theorem find_comparison_file_any_order (files files' : list string) :
  files ≡ₚ files' →
  match find files, find files' with
  | Some f, Some f' =>
      ∃ d d', capture_day f = Some d ∧ capture_day f' = Some d'
              ∧ distance d = distance d'
  | None, None => True
  | _, _ => False
  end.
Proof.
  intros Hperm.
  pose proof (find_least files) as H1. pose proof (find_least files') as H2.
  destruct (find files) as [f|], (find files') as [f'|].
  - destruct H1 as (d & Hf & Hd & _ & Hmin).
    destruct H2 as (d' & Hf' & Hd' & _ & Hmin').
    exists d, d'. split_and!; [done..|].
    rewrite Hperm in Hf. rewrite <- Hperm in Hf'.
    specialize (Hmin f' d' Hf' Hd'). specialize (Hmin' f d Hf Hd). lia.
  - destruct H1 as (d & Hf & Hd & Hle & _). rewrite Hperm in Hf.
    specialize (H2 f d Hf Hd). lia.
  - destruct H2 as (d & Hf & Hd & Hle & _). rewrite <- Hperm in Hf.
    specialize (H1 f' d Hf Hd). lia.
  - done.
Qed.

End Files.

Lemma find_comparison_file_any_order_witness :
  find_comparison_file iso_date Sample.target_date
    ["data/data_2024-04-25.json"; "data/data_2024-04-27.json"]
  = Some "data/data_2024-04-25.json"
  ∧ find_comparison_file iso_date Sample.target_date
      ["data/data_2024-04-27.json"; "data/data_2024-04-25.json"]
    = Some "data/data_2024-04-27.json"
  ∧ ∃ d d', capture_day iso_date "data/data_2024-04-25.json" = Some d
            ∧ capture_day iso_date "data/data_2024-04-27.json" = Some d'
            ∧ distance Sample.target_date d = distance Sample.target_date d'.
Proof.
  assert (E1 : find_comparison_file iso_date Sample.target_date
                 ["data/data_2024-04-25.json"; "data/data_2024-04-27.json"]
               = Some "data/data_2024-04-25.json") by (by vm_compute).
  assert (E2 : find_comparison_file iso_date Sample.target_date
                 ["data/data_2024-04-27.json"; "data/data_2024-04-25.json"]
               = Some "data/data_2024-04-27.json") by (by vm_compute).
  split_and!; [done..|].
  pose proof (find_comparison_file_any_order iso_date Sample.target_date
                ["data/data_2024-04-25.json"; "data/data_2024-04-27.json"]
                ["data/data_2024-04-27.json"; "data/data_2024-04-25.json"]
                (perm_swap _ _ _)) as H.
  by rewrite E1, E2 in H.
Defined.

End SnapshotFacts.

(* ===================================================================== *)
(** * The dates of the console report *)
(* ===================================================================== *)

Module DateFacts.
Import Py Bot Report Notions.

Section DateLoop.
Variable show_date : string → option string.

Local Abbreviation date_turn := (Report.date_turn show_date).
Local Abbreviation record_dates := (Report.record_dates show_date).
Local Abbreviation report_dates := (Report.report_dates show_date).

(** Once [label] has a value, a turn returns and prints one line for a
    date that is shown. *)
Lemma date_turn_bound t d l :
  ∃ out l', date_turn t d (Some l) = (out, Returned (Some l'))
            ∧ length out = length (omap shown_date [d]).
Proof.
  unfold Report.date_turn. csimpl. unfold shown_date.
  destruct d as [s|]; [|by eexists _, _].
  case_decide; [by eexists _, _|].
  destruct (show_date s); by eexists _, _.
Qed.

Lemma record_dates_bound r l :
  ∃ out l', record_dates r (Some l) = (out, Returned (Some l'))
            ∧ length out
              = length (omap shown_date [created_at r; updated_at r]).
Proof.
  unfold Report.record_dates.
  destruct (date_turn_bound "created_at" (created_at r) l)
    as (o1 & l1 & -> & H1).
  destruct (date_turn_bound "updated_at" (updated_at r) l1)
    as (o2 & l2 & -> & H2).
  exists (o1 ++ o2), l2. split; [done|].
  rewrite length_app, H1, H2. csimpl.
  by destruct (shown_date (created_at r)), (shown_date (updated_at r)).
Qed.

Lemma report_dates_bound repos l :
  ∃ out l', report_dates repos (Some l) = (out, Returned (Some l'))
            ∧ length out = length (present_dates repos).
Proof.
  revert l. induction repos as [|r repos IH]; intros l.
  { by exists [], l. }
  cbn [Report.report_dates].
  destruct (record_dates_bound r l) as (o1 & l1 & -> & H1).
  destruct (IH l1) as (o2 & l2 & -> & H2).
  exists (o1 ++ o2), l2. split; [done|].
  unfold present_dates in *. rewrite bind_cons, !length_app. congruence.
Qed.

Lemma report_dates_app (a b : list dated) label :
  report_dates (a ++ b) label
  = match report_dates a label with
    | (out, Returned label') =>
        match report_dates b label' with
        | (out', res) => (out ++ out', res)
        end
    | (out, Raised e) => (out, Raised e)
    end.
Proof.
  revert label. induction a as [|r a IH]; intros label.
  { cbn. by destruct (report_dates b label). }
  cbn [app Report.report_dates].
  destruct (record_dates r label) as [o1 [l1|e]]; [|done].
  rewrite IH. destruct (report_dates a l1) as [o2 [l2|e]]; [|done].
  destruct (report_dates b l2) as [o3 res]. by rewrite app_assoc.
Qed.

(** A record met while [label] has no value. *)
Lemma record_dates_unbound (r : dated) :
  match omap shown_date [created_at r; updated_at r] with
  | [] => record_dates r None = ([], Returned None)
  | s :: rest =>
      match show_date s with
      | None =>
          record_dates r None = ([], Raised (UnboundLocalError "label"))
      | Some _ =>
          ∃ out l, record_dates r None = (out, Returned (Some l))
                   ∧ length out = S (length rest)
      end
  end.
Proof.
  unfold Report.record_dates, Report.date_turn, shown_date. csimpl.
  destruct (created_at r) as [c|], (updated_at r) as [u|]; csimpl;
    repeat case_decide; csimpl; try done;
    repeat (match goal with
            | |- context [show_date ?s] => destruct (show_date s)
            end; csimpl);
    try done; by eexists _, _.
Qed.

(** X17.  The dates of the console report hang on the first date that is
    shown: when it parses, the loop over the records returns with one line
    for every date that is shown; when it does not, [label] has no value
    yet in the handler and the report stops with [UnboundLocalError]
    before any date line is printed; with no date to show the loop prints
    no date line. *)
Theorem console_dates_first_date (repos : list dated) :
  match head (present_dates repos) with
  | None => report_dates repos None = ([], Returned None)
  | Some s =>
      match show_date s with
      | None =>
          report_dates repos None = ([], Raised (UnboundLocalError "label"))
      | Some _ =>
          ∃ out l, report_dates repos None = (out, Returned (Some l))
                   ∧ length out = length (present_dates repos)
      end
  end.
Proof.
  induction repos as [|r repos IH]; [done|].
  unfold present_dates in *. rewrite bind_cons.
  cbn [Report.report_dates].
  pose proof (record_dates_unbound r) as Hr.
  destruct (omap shown_date [created_at r; updated_at r]) as [|s rest].
  - rewrite Hr, app_nil_l.
    destruct (head _) as [s|]; [destruct (show_date s)|].
    + destruct IH as (out & l & -> & Hlen). by eexists _, _.
    + by rewrite IH.
    + by rewrite IH.
  - cbn [app head]. destruct (show_date s); [|by rewrite Hr].
    destruct Hr as (o1 & l1 & -> & H1).
    destruct (report_dates_bound repos l1) as (o2 & l2 & -> & H2).
    eexists _, _. split; [done|].
    unfold present_dates in H2. rewrite length_app, H1, H2.
    cbn [length]. by rewrite length_app.
Qed.

Lemma date_turn_created s shown label :
  s ≠ "" → show_date s = Some shown →
  date_turn "created_at" (Some s) label
  = ([DateLine "创建时间" shown], Returned (Some "创建时间")).
Proof.
  intros Hs Hp. unfold Report.date_turn.
  rewrite (decide_False (P := s = "")) by done. by rewrite Hp.
Qed.

Lemma date_turn_fallback t s l :
  s ≠ "" → show_date s = None →
  date_turn t (Some s) (Some l) = ([DateLine l s], Returned (Some l)).
Proof.
  intros Hs Hp. unfold Report.date_turn.
  rewrite (decide_False (P := s = "")) by done. by rewrite Hp.
Qed.

(** X18.  A date that does not parse is printed as it is under whatever
    [label] holds from the last date that parsed: the update date of a
    record whose creation date parses and whose update date does not is
    printed under the label of the creation date. *)
Theorem console_dates_stale_label (before after : list dated) (r : dated)
    label out0 label0 c u shown :
  report_dates before label = (out0, Returned label0) →
  created_at r = Some c → c ≠ "" → show_date c = Some shown →
  updated_at r = Some u → u ≠ "" → show_date u = None →
  ∃ out2 label2,
    report_dates (before ++ r :: after) label
    = (out0 ++ [DateLine "创建时间" shown; DateLine "创建时间" u] ++ out2,
       Returned (Some label2))
    ∧ length out2 = length (present_dates after).
Proof.
  intros Hb Hc Hcn Hcs Hu Hun Hus.
  rewrite report_dates_app, Hb. cbn [Report.report_dates].
  unfold Report.record_dates. rewrite Hc, Hu.
  rewrite (date_turn_created c shown) by done.
  rewrite (date_turn_fallback "updated_at" u) by done.
  destruct (report_dates_bound after "创建时间") as (o & l & -> & Hlen).
  by exists o, l.
Qed.

End DateLoop.

Lemma console_dates_stale_label_witness :
  let show_date := λ s, if decide (s = "2024-04-26T12:00:00Z")
                        then Some "2024年04月26日" else None in
  report_dates show_date
    [{| created_at := Some "2024-04-26T12:00:00Z";
        updated_at := Some "yesterday" |}] None
  = ([DateLine "创建时间" "2024年04月26日"; DateLine "创建时间" "yesterday"],
     Returned (Some "创建时间")).
Proof.
  intros show_date.
  destruct (console_dates_stale_label show_date [] []
              {| created_at := Some "2024-04-26T12:00:00Z";
                 updated_at := Some "yesterday" |}
              None [] None "2024-04-26T12:00:00Z" "yesterday"
              "2024年04月26日")
    as (out2 & l2 & E & Hlen); [done..|].
  rewrite app_nil_l in E. rewrite E. by vm_compute.
Defined.

End DateFacts.
